(** * ebi.py: the EBI pipeline driver, embedded and verified

    The script looks experiment ids up in a CSV metadata table
    ([find_meta]), fetches the files named there into [<data_dir>/raw]
    ([get_files]) and runs a fixed quality-control shell pipeline over
    each of them into [<data_dir>/qc] ([run_qc]); [main] loops over the
    requested ids.

    Python values are embedded as follows: [str] is [string], [int] is
    [Z], a list is a [list], a [dict] is a [gmap].  Everything the
    script does to the outside world (the open metadata handle, the
    filesystem, the batch runner, [print] and [logging]) is threaded
    through an explicit world state by a small state-and-exception
    monad. *)

From Stdlib Require Import ZArith Ascii String List Bool Lia.
From stdpp Require Import base option list gmap strings pretty.

Local Open Scope string_scope.
Local Open Scope list_scope.
Local Open Scope Z_scope.

(** ** Python [str] operations used by the script *)

Module Str.

Definition newline : ascii := "010"%char.

(** [s[n:]] for [n >= 0]. *)
Fixpoint drop (n : nat) (s : string) : string :=
  match n, s with
  | O, _ => s
  | S _, EmptyString => EmptyString
  | S n', String _ s' => drop n' s'
  end.

(** [s[:n]] for [n >= 0]. *)
Fixpoint take (n : nat) (s : string) : string :=
  match n, s with
  | O, _ => EmptyString
  | S _, EmptyString => EmptyString
  | S n', String c s' => String c (take n' s')
  end.

(** [c in s] for a one-character [c]. *)
Fixpoint mem (c : ascii) (s : string) : bool :=
  match s with
  | EmptyString => false
  | String a s' => Ascii.eqb a c || mem c s'
  end.

(** [s.rfind(c)]: index of the last occurrence, [-1] when absent. *)
Fixpoint rfind (c : ascii) (s : string) : Z :=
  match s with
  | EmptyString => -1
  | String a s' =>
      let r := rfind c s' in
      if 0 <=? r then r + 1
      else if Ascii.eqb a c then 0 else -1
  end.

(** [s.startswith(p)]. *)
Fixpoint startswith (s p : string) {struct p} : bool :=
  match p with
  | EmptyString => true
  | String a p' =>
      match s with
      | EmptyString => false
      | String b s' => Ascii.eqb b a && startswith s' p'
      end
  end.

(** [s.endswith(p)]. *)
Definition endswith (s p : string) : bool :=
  (String.length p <=? String.length s)%nat
  && String.eqb (drop (String.length s - String.length p) s) p.

(** [sep.join(l)]. *)
Definition join (sep : string) (l : list string) : string :=
  String.concat sep l.

(** [s.rjust(n)]: pad with spaces on the left up to width [n]. *)
Definition rjust (n : nat) (s : string) : string :=
  String.concat "" (repeat " " (n - String.length s)) +:+ s.

(** [str(i)] for an [int]. *)
Definition of_int (i : Z) : string := pretty i.

(** [f'{i:3}'] for an [int]: decimal, right-aligned in three columns. *)
Definition fmt_int3 (i : Z) : string := rjust 3 (of_int i).

End Str.

(** ** [os.path] (posixpath) *)

Module os_path.

Definition sep : string := "/".

(** [posixpath.basename]: [i = p.rfind('/') + 1; return p[i:]]. *)
Definition basename (p : string) : string :=
  let i := Str.rfind "/" p + 1 in
  Str.drop (Z.to_nat i) p.

(** [posixpath.join(a, b)] for one extra component. *)
Definition join (a b : string) : string :=
  if Str.startswith b sep then b
  else if String.eqb a "" || Str.endswith a sep then a +:+ b
  else a +:+ sep +:+ b.

End os_path.

(** ** The fragment of [re] used by [run_qc]

    A backtracking matcher with Python's greedy preference order.  The
    pattern of [run_qc] needs literals, [.], a greedy [+] over one
    atom, concatenation, a greedy [?], one capturing group and [$]. *)

Module re.

Inductive atom : Type :=
| Lit (c : ascii)          (* an ordinary character *)
| AnyChar.                 (* [.] : any character but a newline *)

Inductive regex : Type :=
| Atom (a : atom)
| Plus (a : atom)          (* [a+], greedy *)
| Cat (r1 r2 : regex)
| Opt (r : regex)          (* [(?:r)?], greedy *)
| Group (i : nat) (r : regex)  (* capturing group number [i] *)
| Eol.                     (* [$] without MULTILINE *)

(** Captured groups, most recent first. *)
Definition captures : Type := list (nat * string).

Definition atom_ok (a : atom) (c : ascii) : bool :=
  match a with
  | Lit c' => Ascii.eqb c c'
  | AnyChar => negb (Ascii.eqb c Str.newline)
  end.

(** Greedy [a+]: take as many characters as possible, then give them
    back one at a time until the continuation succeeds. *)
Fixpoint plus_greedy {R} (a : atom) (s : string)
    (k : string → option R) : option R :=
  match s with
  | EmptyString => None
  | String c s' =>
      if atom_ok a c then
        match plus_greedy a s' k with
        | Some r => Some r
        | None => k s'
        end
      else None
  end.

(** [$]: at the end of the string, or just before a final newline. *)
Definition at_eol (s : string) : bool :=
  match s with
  | EmptyString => true
  | String c EmptyString => Ascii.eqb c Str.newline
  | _ => false
  end.

Fixpoint rmatch (r : regex) (s : string) (cs : captures)
    (k : string → captures → option captures) : option captures :=
  match r with
  | Atom a =>
      match s with
      | String c s' => if atom_ok a c then k s' cs else None
      | EmptyString => None
      end
  | Plus a => plus_greedy a s (λ s', k s' cs)
  | Cat r1 r2 => rmatch r1 s cs (λ s' cs', rmatch r2 s' cs' k)
  | Opt r' =>
      match rmatch r' s cs k with
      | Some m => Some m
      | None => k s cs
      end
  | Group i r' =>
      rmatch r' s cs (λ s' cs',
        k s' ((i, Str.take (String.length s - String.length s') s) :: cs'))
  | Eol => if at_eol s then k s cs else None
  end.

(** [re.match(pattern, s)]: anchored at the start, not at the end. *)
Definition match_ (pattern : regex) (s : string) : option captures :=
  rmatch pattern s [] (λ _ cs, Some cs).

(** [m.group(i)]. *)
Fixpoint group (m : captures) (i : nat) : option string :=
  match m with
  | [] => None
  | (j, s) :: m' => if Nat.eqb i j then Some s else group m' i
  end.

(** A literal word of at least one character, [c] followed by [w]. *)
Fixpoint word (c : ascii) (w : string) : regex :=
  match w with
  | EmptyString => Atom (Lit c)
  | String c' w' => Cat (Atom (Lit c)) (word c' w')
  end.

End re.

(** The pattern of [run_qc], ['(.+)\.f(?:ast)?q(?:\.gz)?$'], in two
    parts: what follows the group, and the whole. *)
Definition fastq_tail : re.regex :=
  re.Cat (re.Atom (re.Lit "."))
   (re.Cat (re.Atom (re.Lit "f"))
    (re.Cat (re.Opt (re.word "a" "st"))
     (re.Cat (re.Atom (re.Lit "q"))
      (re.Cat (re.Opt (re.word "." "gz"))
       re.Eol)))).

Definition fastq_pattern : re.regex :=
  re.Cat (re.Group 1 (re.Plus re.AnyChar)) fastq_tail.

(** Lines 163-167 of [run_qc]: the stem of a basename.  Group 1 takes
    part in every match of the pattern, so [m.group(1)] is a string. *)
Definition qc_stem (basename : string) : string :=
  match re.match_ fastq_pattern basename with
  | Some m => default basename (re.group m 1)
  | None => basename
  end.

(** ** Exceptions, the world and the monad *)

Inductive exn : Type :=
| Exception (msg : string)     (* [raise Exception(msg)] *)
| TypeError                    (* a [None] where a value was needed *)
| KeyError (key : string)      (* [d[key]] on a missing key *)
| ValueError                   (* I/O on a handle that is not open *)
| OSError (path : string)      (* a call of the operating system failed *)
| RunnerError (msg : string).  (* whatever the batch runner raises *)

(** A CSV record as [csv.reader] yields it: the list of its fields.  A
    blank line yields the empty record. *)
Abbreviation record := (list string).

(** An open text file ([TextIO]): its identity in the store of open
    streams, and its [name] attribute. *)
Record TextIO : Type := { fh_id : nat; fh_name : string }.

(** What the script needs from the operating system.  [makedirs]
    returns [None] when [os.makedirs] raises; the call makes the
    leading directories first, so that it can raise after some of them
    have been made: [makedirs_raised] is the filesystem it leaves then.
    [open_w] is [open(path, 'w')], which makes or empties the file, and
    returns [None] when the file cannot be opened.  The three laws are
    all that is assumed: creating directories neither creates nor
    removes a regular file, a created directory is a directory, and a
    regular file [d/b] can only exist inside a directory [d]. *)
Class OS (fs : Type) : Type := {
  isfile : string → fs → bool;
  isdir : string → fs → bool;
  makedirs : string → fs → option fs;
  makedirs_raised : string → fs → fs;
  open_w : string → fs → option fs;
  makedirs_isfile d s s' p :
    makedirs d s = Some s' → isfile p s' = isfile p s;
  makedirs_isdir d s s' :
    makedirs d s = Some s' → isdir d s' = true;
  isfile_parent d b s :
    d ≠ EmptyString → Str.mem "/" b = false →
    isfile (d +:+ "/" +:+ b) s = true → isdir d s = true
}.

Section World.

Context {fs : Type} `{!OS fs}.

(** Everything outside the interpreter that the script reads or
    changes.  [w_streams] maps an open handle to the records still
    ahead of its read position; [w_handlers] tells whether the root
    logger has a handler, [w_debug] whether it logs at DEBUG level, and
    [w_log] holds the records it has written; [w_batches] is the
    sequence of batches handed to [parallelprocs.run]. *)
Record World : Type := {
  w_fs : fs;
  w_streams : gmap nat (list record);
  w_stdout : list string;
  w_handlers : bool;
  w_debug : bool;
  w_log : list string;
  w_batches : list (list string)
}.

Definition M (A : Type) : Type := World → (exn + A) * World.

Definition ret {A} (a : A) : M A := λ w, (inr a, w).

Definition raise {A} (e : exn) : M A := λ w, (inl e, w).

Definition bind {A B} (m : M A) (k : A → M B) : M B :=
  λ w, match m w with
       | (inr a, w') => k a w'
       | (inl e, w') => (inl e, w')
       end.

End World.

Arguments World fs : clear implicits.
Arguments M fs A : clear implicits.

(** The monad is used through stdpp's [x ← c; k] and [c;; k]. *)
Global Instance M_ret {fs} : MRet (M fs) := λ A, @ret fs A.
Global Instance M_bind {fs} : MBind (M fs) := λ A B k m, @bind fs A B m k.

(** ** [csv.DictReader] rows *)

(** The values a [DictReader] row holds: a field, [None] (the default
    [restval] of a short record) or the list of surplus fields (stored
    under the default [restkey], which is [None]). *)
Inductive value : Type :=
| VStr (s : string)
| VNone
| VList (l : list string).

(** A row is a [dict]; its keys are column names or [None]. *)
Abbreviation row := (gmap (option string) value).

(** [dict(zip(fieldnames, row))]: a later duplicate column wins. *)
Definition dict_zip (fieldnames : list string) (r : record) : row :=
  foldl (λ d kv, <[Some kv.1 := VStr kv.2]> d) ∅ (zip fieldnames r).

(** The body of [DictReader.__next__] once a non-blank record [r] has
    been read. *)
Definition make_row (fieldnames : list string) (r : record) : row :=
  let d := dict_zip fieldnames r in
  let lf := length fieldnames in
  let lr := length r in
  if (lf <? lr)%nat then <[None := VList (drop lf r)]> d
  else if (lr <? lf)%nat then
    foldl (λ d key, <[Some key := VNone]> d) d (drop lr fieldnames)
  else d.

(** [d[key]]. *)
Definition getitem (d : row) (key : string) : exn + value :=
  match d !! Some key with
  | Some v => inr v
  | None => inl (KeyError key)
  end.

(** [v == s] for a [str] [s]. *)
Definition value_eq_str (v : value) (s : string) : bool :=
  match v with
  | VStr s' => String.eqb s' s
  | _ => false
  end.

(** [lambda r: r['experiment_id'] == key], the predicate [find_meta]
    filters by. *)
Definition id_pred (key : string) (r : row) : exn + bool :=
  match getitem r "experiment_id" with
  | inr v => inr (value_eq_str v key)
  | inl e => inl e
  end.

(** [list(filter(pred, reader))] over the records still ahead in the
    stream, for a reader whose header has been read: each non-blank
    record becomes a row, blank records are skipped, and the rows on
    which [pred] holds are kept.  Returns the result and what is left
    of the stream; an exception of [pred] stops the iteration where it
    is. *)
Fixpoint filter_reader (pred : row → exn + bool) (fieldnames : list string)
    (recs : list record) : (exn + list row) * list record :=
  match recs with
  | [] => (inr [], [])
  | [] :: recs' => filter_reader pred fieldnames recs'
  | r :: recs' =>
      let d := make_row fieldnames r in
      match pred d with
      | inl e => (inl e, recs')
      | inr b =>
          match filter_reader pred fieldnames recs' with
          | (inr rows, rest) => (inr (if b then d :: rows else rows), rest)
          | (inl e, rest) => (inl e, rest)
          end
      end
  end.

Definition dq : string := String "034" EmptyString.

(** [s] between two double-quote characters. *)
Definition quoted (s : string) : string := dq +:+ s +:+ dq.

Record Args : Type := {
  experiment_id : list Z;
  data_dir : string;
  metadata : TextIO;
  debug : bool;
  logfile : string
}.

(** ** The script *)

Section Pipeline.

Context {fs : Type} `{!OS fs}.

(** [parallelprocs.run(jobs, halt, num_procs)]: an opaque collaborator.
    It may change the filesystem in any way, or raise. *)
Variable parallelprocs_run : list string → Z → Z → fs → exn + fs.

Abbreviation World := (World fs).
Abbreviation M := (M fs).

(** *** Primitive effects *)

Definition set_fs (s : fs) (w : World) : World :=
  {| w_fs := s; w_streams := w_streams w; w_stdout := w_stdout w;
     w_handlers := w_handlers w; w_debug := w_debug w; w_log := w_log w;
     w_batches := w_batches w |}.

Definition set_stream (h : nat) (recs : list record) (w : World) : World :=
  {| w_fs := w_fs w; w_streams := <[h := recs]> (w_streams w);
     w_stdout := w_stdout w; w_handlers := w_handlers w;
     w_debug := w_debug w; w_log := w_log w; w_batches := w_batches w |}.

Definition add_stdout (line : string) (w : World) : World :=
  {| w_fs := w_fs w; w_streams := w_streams w;
     w_stdout := w_stdout w ++ [line]; w_handlers := w_handlers w;
     w_debug := w_debug w; w_log := w_log w; w_batches := w_batches w |}.

(** The root logger is sent [msgs], one call of [logging.debug] each:
    it writes them if it is at DEBUG level.  A call that finds the
    root logger without a handler gives it one first (and leaves its
    level alone). *)
Definition log_msgs (msgs : list string) (w : World) : World :=
  {| w_fs := w_fs w; w_streams := w_streams w; w_stdout := w_stdout w;
     w_handlers := match msgs with [] => w_handlers w | _ => true end;
     w_debug := w_debug w;
     w_log := if w_debug w then w_log w ++ msgs else w_log w;
     w_batches := w_batches w |}.

Definition add_batch (todo : list string) (w : World) : World :=
  {| w_fs := w_fs w; w_streams := w_streams w; w_stdout := w_stdout w;
     w_handlers := w_handlers w; w_debug := w_debug w; w_log := w_log w;
     w_batches := w_batches w ++ [todo] |}.

(** [print(line)]. *)
Definition print (line : string) : M unit := λ w,
  (inr (), add_stdout line w).

(** [logging.debug(msg)]: written only when the root logger is at
    DEBUG level. *)
Definition logging_debug (msg : string) : M unit := λ w,
  (inr (), log_msgs [msg] w).

(** [logging.basicConfig(filename=filename, filemode='w', level=...)],
    the level being DEBUG when [dbg] holds and INFO otherwise.  The
    call does nothing when the root logger already has a handler.
    Otherwise the logger is given a handler and the level is set.  For
    an empty [filename] the handler writes to the standard error
    stream and no file is opened; for any other, the handler opens
    [filename] for writing at once, which empties the file or
    raises. *)
Definition logging_basicConfig (filename : string) (dbg : bool) : M unit :=
  λ w,
  if w_handlers w then (inr (), w)
  else if String.eqb filename EmptyString then
    (inr (),
     {| w_fs := w_fs w; w_streams := w_streams w; w_stdout := w_stdout w;
        w_handlers := true; w_debug := dbg; w_log := w_log w;
        w_batches := w_batches w |})
  else
    match open_w filename (w_fs w) with
    | None => (inl (OSError filename), w)
    | Some s =>
        (inr (),
         {| w_fs := s; w_streams := w_streams w; w_stdout := w_stdout w;
            w_handlers := true; w_debug := dbg; w_log := [];
            w_batches := w_batches w |})
    end.

Definition os_path_isfile (p : string) : M bool := λ w,
  (inr (isfile p (w_fs w)), w).

Definition os_path_isdir (p : string) : M bool := λ w,
  (inr (isdir p (w_fs w)), w).

Definition os_makedirs (p : string) : M unit := λ w,
  match makedirs p (w_fs w) with
  | Some s => (inr (), set_fs s w)
  | None => (inl (OSError p), set_fs (makedirs_raised p (w_fs w)) w)
  end.

(** The call [parallelprocs.run(todo, halt=1, num_procs=8)]: the batch
    is recorded, then the runner acts on the filesystem. *)
Definition run_batch (todo : list string) (halt num_procs : Z) : M unit :=
  λ w,
  match parallelprocs_run todo halt num_procs (w_fs w) with
  | inr s => (inr (), set_fs s (add_batch todo w))
  | inl e => (inl e, add_batch todo w)
  end.

(** [next(csv.reader(fh))]: the next record, [None] at the end of the
    stream ([StopIteration]).  How the [csv] module splits the text
    into records and fields is not part of the script: a stream is
    given by the records the reader yields from it. *)
Definition csv_next (fh : TextIO) : M (option record) := λ w,
  match w_streams w !! fh_id fh with
  | None => (inl ValueError, w)
  | Some [] => (inr None, w)
  | Some (r :: recs) => (inr (Some r), set_stream (fh_id fh) recs w)
  end.

(** [reader.fieldnames] on a fresh [DictReader]: the first record read
    from the handle, or [None] when there is none. *)
Definition DictReader_fieldnames (fh : TextIO) : M (option (list string)) :=
  csv_next fh.

(** [list(filter(pred, reader))], see [filter_reader]. *)
Definition list_filter_reader (pred : row → exn + bool)
    (fieldnames : list string) (fh : TextIO) : M (list row) := λ w,
  match w_streams w !! fh_id fh with
  | None => (inl ValueError, w)
  | Some recs =>
      let '(res, rest) := filter_reader pred fieldnames recs in
      (res, set_stream (fh_id fh) rest w)
  end.

(** *** [find_meta] (lines 100-112) *)

Definition find_meta (exp_id : Z) (fh : TextIO) : M (list row) :=
  names ← DictReader_fieldnames fh;
  match names : option (list string) with
  | None => raise TypeError
  | Some fieldnames =>
      if negb (bool_decide ("experiment_id" ∈ fieldnames)) then
        raise (Exception (quoted (fh_name fh) +:+ " missing "
                          +:+ quoted "experiment_id" +:+ " field"))
      else
        meta ← list_filter_reader (id_pred (Str.of_int exp_id))
                 fieldnames fh;
        match meta : list row with
        | [] => raise (Exception ("experiment_id "
                                  +:+ quoted (Str.of_int exp_id)
                                  +:+ " not found"))
        | _ => ret meta
        end
  end.

(** The postcondition check shared by [get_files] (lines 142-146) and
    [run_qc] (lines 184-188). *)
Definition missing_of (expected : list string) (s : fs) : list string :=
  filter (λ f, negb (isfile f s) = true) expected.

Definition check_expected (expected : list string) : M (list string) := λ w,
  match missing_of expected (w_fs w) with
  | [] => (inr expected, w)
  | missing =>
      (inl (Exception ("Failed to download " +:+ Str.join ", " missing)), w)
  end.

(** *** [get_files] (lines 116-146) *)

Definition iget_cmd (file path : string) : string :=
  "iget -f " +:+ file +:+ " " +:+ path.

(** The [for file in files] loop; the accumulators are the lists
    [expected] and [todo]. *)
Fixpoint get_files_loop (raw_dir : string) (files : list value)
    (expected todo : list string) : M (list string * list string) :=
  match files with
  | [] => ret (expected, todo)
  | VStr file :: files' =>
      let path := os_path.join raw_dir (os_path.basename file) in
      if bool_decide (path ∈ expected) then
        get_files_loop raw_dir files' expected todo
      else
        let expected := expected ++ [path] in
        present ← os_path_isfile path;
        if (present : bool) then
          logging_debug ("Already downloaded " +:+ quoted file);;
          get_files_loop raw_dir files' expected todo
        else
          logging_debug ("Will get " +:+ quoted file);;
          get_files_loop raw_dir files' expected
            (todo ++ [iget_cmd file path])
  | _ :: _ => raise TypeError   (* [os.path.basename] of a non-[str] *)
  end.

Definition get_files (files : list value) (data_dir : string)
    : M (list string) :=
  let raw_dir := os_path.join data_dir "raw" in
  is_dir ← os_path_isdir raw_dir;
  (if negb (is_dir : bool) then os_makedirs raw_dir else ret ());;
  '(expected, todo) ← get_files_loop raw_dir files [] [];
  (match todo with
       | [] => ret ()
       | _ => run_batch todo 1 8
       end);;
  check_expected expected.

(** *** [run_qc] (lines 150-188) *)

Definition qc_tmpl (source qc_file : string) : string :=
  source +:+ " | fastq_quality_filter -q 20 -p 80 -Q 33 "
  +:+ "| fastx_clipper -l 80 | fastx_collapser > " +:+ qc_file.

Definition qc_source (file : string) : string :=
  if Str.endswith (os_path.basename file) ".gz"
  then "gunzip -c " +:+ file
  else "cat " +:+ file.

Definition qc_path (qc_dir file : string) : string :=
  os_path.join qc_dir (qc_stem (os_path.basename file) +:+ ".fa").

Fixpoint run_qc_loop (qc_dir : string) (files : list string)
    (expected todo : list string) : M (list string * list string) :=
  match files with
  | [] => ret (expected, todo)
  | file :: files' =>
      let qc_file := qc_path qc_dir file in
      let expected := expected ++ [qc_file] in
      present ← os_path_isfile qc_file;
      if (present : bool) then
        logging_debug ("QC file " +:+ quoted qc_file
                           +:+ " already exists");;
        run_qc_loop qc_dir files' expected todo
      else
        let cmd := qc_tmpl (qc_source file) qc_file in
        logging_debug cmd;;
        run_qc_loop qc_dir files' expected (todo ++ [cmd])
  end.

Definition run_qc (files : list string) (data_dir : string)
    : M (list string) :=
  let qc_dir := os_path.join data_dir "qc" in
  is_dir ← os_path_isdir qc_dir;
  (if negb (is_dir : bool) then os_makedirs qc_dir else ret ());;
  '(expected, todo) ← run_qc_loop qc_dir files [] [];
  (match todo with
       | [] => ret ()
       | _ => run_batch todo 1 8
       end);;
  check_expected expected.

(** *** [process] (lines 90-96) and [main] (lines 73-86) *)

(** [list(map(lambda m: m['url'], meta))]. *)
Fixpoint urls_of (meta : list row) : M (list value) :=
  match meta with
  | [] => ret []
  | m :: meta' =>
      match getitem m "url" with
      | inl e => raise e
      | inr v => vs ← urls_of meta'; ret (v :: vs)
      end
  end.

Definition process (exp_id : Z) (fh : TextIO) (data_dir : string)
    : M unit :=
  meta ← find_meta exp_id fh;
  urls ← urls_of meta;
  local ← get_files urls data_dir;
  run_qc local data_dir;;
  ret ().

(** [for i, exp_id in enumerate(ids, start=i)]. *)
Fixpoint main_loop (i : Z) (ids : list Z) (fh : TextIO)
    (data_dir : string) : M unit :=
  match ids with
  | [] => ret ()
  | exp_id :: ids' =>
      print (Str.fmt_int3 i +:+ ": " +:+ Str.of_int exp_id);;
      process exp_id fh data_dir;;
      main_loop (i + 1) ids' fh data_dir
  end.

(** [main], from the parsed arguments on. *)
Definition main (args : Args) : M unit :=
  logging_basicConfig (logfile args) (debug args);;
  main_loop 1 (experiment_id args) (metadata args) (data_dir args);;
  print "Done.".

End Pipeline.

Arguments find_meta {fs} exp_id fh.
Arguments check_expected {fs _} expected.
Arguments missing_of {fs _} expected s.

(** ** A small concrete operating system

    Used to run the script on concrete inputs.  A state lists the
    regular files and the directories made so far; a directory also
    exists as soon as it holds a regular file.  Paths are taken as
    they are written: [isfile] and [isdir] resolve neither [.] nor
    [..], and there are no permissions. *)

Module Sim.

Record state : Type := { files : list string; dirs : list string }.

(** [p] is [d/b] for a non-empty [d] and a [b] without a slash. *)
Definition is_child (d p : string) : bool :=
  negb (String.eqb d EmptyString)
  && Str.startswith p (d +:+ "/")
  && negb (Str.mem "/" (Str.drop (String.length d + 1) p)).

Definition sim_isfile (p : string) (s : state) : bool :=
  bool_decide (p ∈ files s).

Definition sim_isdir (d : string) (s : state) : bool :=
  bool_decide (d ∈ dirs s) || existsb (is_child d) (files s).

(** [p] lies below [f]: it is [f/...] for a non-empty [f]. *)
Definition is_under (f p : string) : bool :=
  negb (String.eqb f EmptyString) && Str.startswith p (f +:+ "/").

(** What lies ahead of a last component [..]: [head] for a path
    [head/..], nothing for the path [..]. *)
Definition dotdot_head (d : string) : option string :=
  if String.eqb d ".." then Some EmptyString
  else if Str.endswith d "/.."
  then Some (Str.take (String.length d - 3) d)
  else None.

(** Nothing can be made at [d]: the path is empty, exists already, or
    lies below a regular file. *)
Definition taken (d : string) (s : state) : bool :=
  String.eqb d EmptyString || sim_isfile d s || sim_isdir d s
  || existsb (λ f, is_under f d) (files s).

(** [os.makedirs] refuses a path where nothing can be made, and a path
    whose last component is [..]. *)
Definition sim_makedirs (d : string) (s : state) : option state :=
  if taken d s || bool_decide (is_Some (dotdot_head d)) then None
  else Some {| files := files s; dirs := d :: dirs s |}.

(** What a refused [os.makedirs] leaves.  For [head/..] the leading
    part [head] is made first where it can be, and only then does the
    call raise, as [head/..] exists by then; a [head] that itself ends
    in [..] is dealt with in the same way.  In the other cases the
    call raises ahead of any change. *)
Fixpoint raised_from (n : nat) (d : string) (s : state) : state :=
  match n, dotdot_head d with
  | S n', Some head =>
      if taken head s then s
      else if bool_decide (is_Some (dotdot_head head))
      then raised_from n' head s
      else {| files := files s; dirs := head :: dirs s |}
  | _, _ => s
  end.

Definition sim_makedirs_raised (d : string) (s : state) : state :=
  raised_from (String.length d) d s.

(** [open(p, 'w')] refuses the empty path, a directory and a path below
    a regular file; otherwise the file is there afterwards. *)
Definition sim_open_w (p : string) (s : state) : option state :=
  if String.eqb p EmptyString || sim_isdir p s
     || existsb (λ f, is_under f p) (files s)
  then None
  else Some {| files := if sim_isfile p s then files s else p :: files s;
               dirs := dirs s |}.

(** The last blank-separated word of a command: the destination of an
    [iget] command and of a redirected pipeline. *)
Definition target (cmd : string) : string :=
  Str.drop (Z.to_nat (Str.rfind " " cmd + 1)) cmd.

(** A runner where every command succeeds and leaves its target. *)
Definition run_ok (jobs : list string) (halt num_procs : Z) (s : state)
    : exn + state :=
  inr {| files := files s ++ (target <$> jobs); dirs := dirs s |}.

(** A runner that does nothing and reports success. *)
Definition run_noop (jobs : list string) (halt num_procs : Z) (s : state)
    : exn + state := inr s.

Definition empty : state := {| files := []; dirs := [] |}.

(** A world with one open handle, number [0], over [recs]. *)
Definition world (s : state) (recs : list record) : World state :=
  {| w_fs := s; w_streams := {[ 0%nat := recs ]}; w_stdout := [];
     w_handlers := false; w_debug := false; w_log := []; w_batches := [] |}.

Definition fh0 : TextIO := {| fh_id := 0; fh_name := "meta.csv" |}.

End Sim.

(** ** The table a stream holds, in the words of the specification *)

Global Instance value_eq_dec : EqDecision value.
Proof. solve_decision. Defined.

(** The rows of a table with header [hdr] and body records [body]: one
    row per non-blank record, in source order. *)
Definition rows_of (hdr : list string) (body : list record) : list row :=
  make_row hdr <$> filter (λ r, r ≠ []) body.

(** The fields of a row under the columns [cols]. *)
Definition row_fields (cols : list string) (r : row) : list (option value) :=
  (λ c, r !! Some c) <$> cols.

(** The rows whose [experiment_id] field is the string [key]. *)
Definition rows_matching (key : string) (rows : list row) : list row :=
  filter (λ r, r !! Some "experiment_id" = Some (VStr key)) rows.

(** Keep the first occurrence of every element, in order. *)
Fixpoint dedup_from (seen l : list string) : list string :=
  match l with
  | [] => []
  | x :: l' =>
      if bool_decide (x ∈ seen) then dedup_from seen l'
      else x :: dedup_from (seen ++ [x]) l'
  end.

Definition dedup_first (l : list string) : list string := dedup_from [] l.

(** The directories and destinations of sections 4.2 and 4.3. *)
Definition raw_dir_of (data_dir : string) : string :=
  os_path.join data_dir "raw".

Definition qc_dir_of (data_dir : string) : string :=
  os_path.join data_dir "qc".

Definition raw_dest (data_dir url : string) : string :=
  os_path.join (raw_dir_of data_dir) (os_path.basename url).

(** The suffixes the pattern of [run_qc] strips: [.f], then [ast] or
    not, then [q], then [.gz] or not.  The end of the name, where [$]
    matches, is its very end or the place before a final newline. *)
Definition fastq_suffixes : list string :=
  [".fq"; ".fastq"; ".fq.gz"; ".fastq.gz"].

Definition eol_tails : list string := [EmptyString; String Str.newline EmptyString].

(** [s] is one or more characters, a character being what [.] matches:
    anything but a newline. *)
Definition dot_plus (s : string) : Prop :=
  s ≠ EmptyString ∧ Str.mem Str.newline s = false.

(** The stem relation of section 4.3: the stem of [stem ++ suffix] is
    [stem], and a basename of no such shape is its own stem. *)
Inductive StemOf : string → string → Prop :=
| stem_stripped stem suf nl :
    dot_plus stem → suf ∈ fastq_suffixes → nl ∈ eol_tails →
    StemOf (stem +:+ suf +:+ nl) stem
| stem_verbatim b :
    (∀ stem suf nl, dot_plus stem → suf ∈ fastq_suffixes → nl ∈ eol_tails →
                    b ≠ stem +:+ suf +:+ nl) →
    StemOf b b.

(** Everything the part of the pattern after the group can match. *)
Definition tails : list string :=
  suf ← fastq_suffixes; nl ← eol_tails; [suf +:+ nl].

Definition is_tail (s : string) : bool := existsb (String.eqb s) tails.

(** Every character of [s] is matched by the atom [a]. *)
Fixpoint all_ok (a : re.atom) (s : string) : bool :=
  match s with
  | EmptyString => true
  | String c s' => re.atom_ok a c && all_ok a s'
  end.

(** ** What the two loops compute, as pure functions of the filesystem *)

Section Plans.

Context {fs : Type} `{!OS fs}.

(** The commands [get_files] queues for [urls], given the
    destinations [seen] so far: one per first occurrence of a
    destination that is not yet a regular file. *)
Fixpoint gf_todo (raw_dir : string) (s : fs) (seen : list string)
    (urls : list string) : list string :=
  match urls with
  | [] => []
  | u :: urls' =>
      let path := os_path.join raw_dir (os_path.basename u) in
      if bool_decide (path ∈ seen) then gf_todo raw_dir s seen urls'
      else (if isfile path s then [] else [iget_cmd u path])
           ++ gf_todo raw_dir s (seen ++ [path]) urls'
  end.

(** The debug messages of the same loop. *)
Fixpoint gf_log (raw_dir : string) (s : fs) (seen : list string)
    (urls : list string) : list string :=
  match urls with
  | [] => []
  | u :: urls' =>
      let path := os_path.join raw_dir (os_path.basename u) in
      if bool_decide (path ∈ seen) then gf_log raw_dir s seen urls'
      else (if isfile path s then "Already downloaded " +:+ quoted u
            else "Will get " +:+ quoted u)
           :: gf_log raw_dir s (seen ++ [path]) urls'
  end.

(** The commands [run_qc] queues: one per input whose output is not
    yet a regular file. *)
Definition rq_todo (qc_dir : string) (s : fs) (files : list string)
    : list string :=
  (λ f, qc_tmpl (qc_source f) (qc_path qc_dir f))
    <$> filter (λ f, isfile (qc_path qc_dir f) s = false) files.

Definition rq_log (qc_dir : string) (s : fs) (files : list string)
    : list string :=
  (λ f, if isfile (qc_path qc_dir f) s
        then "QC file " +:+ quoted (qc_path qc_dir f) +:+ " already exists"
        else qc_tmpl (qc_source f) (qc_path qc_dir f)) <$> files.

(** [if not os.path.isdir(d): os.makedirs(d)] on the filesystem. *)
Definition ensure_dir (d : string) (s : fs) : option fs :=
  if isdir d s then Some s else makedirs d s.

(** The batch [todo], submitted from filesystem [s1], completed and
    left [s2]; an empty batch is not submitted at all. *)
Definition batch_done (run : list string → Z → Z → fs → exn + fs)
    (todo : list string) (s1 s2 : fs) : Prop :=
  match todo with
  | [] => s2 = s1
  | _ => run todo 1 8 s1 = inr s2
  end.

(** The destinations of a list of URLs, in order, repeats included. *)
Definition dests (raw_dir : string) (urls : list string) : list string :=
  (λ u, os_path.join raw_dir (os_path.basename u)) <$> urls.

(** Lines 139-146 and 181-188, from the world [w] the loop left. *)
Definition finish (run : list string → Z → Z → fs → exn + fs)
    (expected todo : list string) (w : World fs)
    : (exn + list string) * World fs :=
  match todo with
  | [] => check_expected expected w
  | _ =>
      match run todo 1 8 (w_fs w) with
      | inr s => check_expected expected (set_fs s (add_batch todo w))
      | inl e => (inl e, add_batch todo w)
      end
  end.

End Plans.

(** ** The helpers [fst] and [snd] (lines 192-202)

    A tuple is the list of its items; [None] stands for the
    [IndexError] of an index out of range. *)

Module ebi.

(** [t[0]]. *)
Definition fst {A} (t : list A) : option A := t !! 0%nat.

(** [t[1]]. *)
Definition snd {A} (t : list A) : option A := t !! 1%nat.

End ebi.

(** ** The end of [get_args] (lines 58-69)

    What [get_args] does with the parsed arguments: the data directory
    is made if nothing is there, must be a directory, and is made
    absolute.  The parsing itself is the work of [argparse] and is not
    modelled. *)

Module posixpath.

(** [os.path.isabs]. *)
Definition isabs (p : string) : bool := Str.startswith p "/".

(** [s.split(c)] for a one-character separator. *)
Fixpoint split (c : ascii) (s : string) : list string :=
  match s with
  | EmptyString => [EmptyString]
  | String a s' =>
      if Ascii.eqb a c then EmptyString :: split c s'
      else match split c s' with
           | [] => [String a EmptyString]
           | x :: xs => String a x :: xs
           end
  end.

Definition is_nil {A} (l : list A) : bool :=
  match l with [] => true | _ => false end.

(** The number [normpath] keeps of the leading slashes: two when there
    are exactly two, one otherwise. *)
Definition initial_slashes (path : string) : nat :=
  if Str.startswith path "/" then
    if Str.startswith path "//" && negb (Str.startswith path "///")
    then 2 else 1
  else 0.

(** One turn of the loop of [normpath] over the components. *)
Definition norm_step (slashes : nat) (new_comps : list string)
    (comp : string) : list string :=
  if String.eqb comp EmptyString || String.eqb comp "." then new_comps
  else if negb (String.eqb comp "..")
          || (Nat.eqb slashes 0 && is_nil new_comps)
          || (negb (is_nil new_comps)
              && bool_decide (last new_comps = Some ".."))
  then new_comps ++ [comp]
  else if negb (is_nil new_comps) then removelast new_comps
  else new_comps.

(** [os.path.normpath]. *)
Definition normpath (path : string) : string :=
  if String.eqb path EmptyString then "."
  else
    let slashes := initial_slashes path in
    let comps := foldl (norm_step slashes) [] (split "/" path) in
    let path := Str.join "/" comps in
    let path := String.concat EmptyString (repeat "/" slashes) +:+ path in
    if String.eqb path EmptyString then "." else path.

(** [os.path.abspath], with [cwd] for [os.getcwd()]. *)
Definition abspath (cwd path : string) : string :=
  normpath (if isabs path then path else os_path.join cwd path).

End posixpath.


(** How [get_args] can fail once the arguments are parsed: through
    [parser.error], which writes the usage and the message and exits
    with status 2, or through an exception. *)
Inductive args_failure : Type :=
| ParserError (msg : string)
| Raised (e : exn).

Section GetArgs.

Context {fs : Type} `{!OS fs}.

(** [os.path.exists] and [os.getcwd()]. *)
Variable path_exists : string → fs → bool.
Variable cwd : string.

Definition set_data_dir (d : string) (args : Args) : Args :=
  {| experiment_id := experiment_id args; data_dir := d;
     metadata := metadata args; debug := debug args;
     logfile := logfile args |}.

(** Lines 60-69, on the arguments [parse_args] returned. *)
Definition get_args_checks (args : Args) (s : fs)
    : (args_failure + Args) * fs :=
  let d := data_dir args in
  match (if negb (path_exists d s) then makedirs d s else Some s) with
  | None => (inl (Raised (OSError d)), makedirs_raised d s)
  | Some s1 =>
      if negb (isdir d s1) then
        (inl (ParserError ("--data_dir " +:+ quoted d
                           +:+ " not a directory")), s1)
      else if negb (posixpath.isabs d) then
        (inr (set_data_dir (posixpath.abspath cwd d) args), s1)
      else (inr args, s1)
  end.

End GetArgs.

(** [os.path.exists] in the concrete operating system. *)
Definition sim_exists (p : string) (s : Sim.state) : bool :=
  Sim.sim_isfile p s || Sim.sim_isdir p s.

(** ** More words for what the script does *)

(** A runner under which the batch fails. *)
Definition run_fail (jobs : list string) (halt num_procs : Z) (s : Sim.state)
    : exn + Sim.state := inl (RunnerError "halted").

(** The URLs [get_files] may fetch: the first URL of every destination
    not among [seen], in order. *)
Fixpoint first_urls (raw_dir : string) (seen : list string)
    (urls : list string) : list string :=
  match urls with
  | [] => []
  | u :: urls' =>
      let path := os_path.join raw_dir (os_path.basename u) in
      if bool_decide (path ∈ seen) then first_urls raw_dir seen urls'
      else u :: first_urls raw_dir (seen ++ [path]) urls'
  end.


(** The line [main] prints ahead of the pipeline of [exp_id], the
    [i]-th id of the run. *)
Definition ordinal_line (i exp_id : Z) : string :=
  Str.fmt_int3 i +:+ ": " +:+ Str.of_int exp_id.

(** The lines [main] prints ahead of the pipelines of [ids], the first
    of them numbered [i]. *)
Fixpoint ordinal_lines (i : Z) (ids : list Z) : list string :=
  match ids with
  | [] => []
  | exp_id :: ids' =>
      (Str.fmt_int3 i +:+ ": " +:+ Str.of_int exp_id)
      :: ordinal_lines (i + 1) ids'
  end.

(** Between [w] and [w'] nothing was printed, the level of the root
    logger was left alone and, unless it is DEBUG, nothing was
    logged. *)
Definition quiet {fs} (w w' : World fs) : Prop :=
  w_stdout w' = w_stdout w
  ∧ w_debug w' = w_debug w
  ∧ (w_debug w = false → w_log w' = w_log w).

(** Between [w] and [w'] neither the filesystem changed nor a batch was
    handed to the runner. *)
Definition idle {fs} (w w' : World fs) : Prop :=
  w_fs w' = w_fs w ∧ w_batches w' = w_batches w.

(** * Facts about strings and paths *)

#[local] Arguments String.append !_ _ / : simpl nomatch.

Section StringFacts.

Implicit Types s t p : string.

Lemma sapp_nil_r s : s +:+ EmptyString = s.
Proof. induction s; simpl; congruence. Qed.

Lemma sapp_assoc s t p : (s +:+ t) +:+ p = s +:+ (t +:+ p).
Proof. induction s; simpl; congruence. Qed.

Lemma slength_app s t :
  String.length (s +:+ t) = (String.length s + String.length t)%nat.
Proof. induction s; simpl; congruence. Qed.

Lemma sdrop_app s t : Str.drop (String.length s) (s +:+ t) = t.
Proof. induction s; simpl; [by destruct t|done]. Qed.

Lemma stake_app s t : Str.take (String.length s) (s +:+ t) = s.
Proof. induction s; simpl; [by destruct t|congruence]. Qed.

Lemma startswith_app s t : Str.startswith (s +:+ t) s = true.
Proof.
  induction s as [|c s IH]; simpl; [done|].
  by rewrite Ascii.eqb_refl.
Qed.

Lemma smem_app c s t : Str.mem c (s +:+ t) = Str.mem c s || Str.mem c t.
Proof. induction s; simpl; [done|]. by rewrite IHs, orb_assoc. Qed.

Lemma rfind_range c s :
  (Str.rfind c s = -1 ∧ Str.mem c s = false)
  ∨ (0 ≤ Str.rfind c s < Z.of_nat (String.length s) ∧ Str.mem c s = true).
Proof.
  induction s as [|a s IH]; simpl; [by left|].
  destruct IH as [[-> Hm]|[Hr Hm]]; rewrite Hm; simpl.
  - destruct (Ascii.eqb a c); [right|left]; split; (lia || done).
  - destruct (Z.leb_spec 0 (Str.rfind c s)); [|lia].
    right. split; [lia|]. by rewrite orb_true_r.
Qed.

(** What follows the last [c] holds no [c]. *)
Lemma drop_rfind_mem c s :
  Str.mem c (Str.drop (Z.to_nat (Str.rfind c s + 1)) s) = false.
Proof.
  induction s as [|a s IH]; simpl; [done|].
  destruct (rfind_range c s) as [[Hr Hm]|[Hr Hm]].
  - rewrite Hr; simpl. destruct (Ascii.eqb a c) eqn:E; simpl; [done|].
    by rewrite E, Hm.
  - destruct (Z.leb_spec 0 (Str.rfind c s)); [|lia].
    replace (Z.to_nat (Str.rfind c s + 1 + 1))
      with (S (Z.to_nat (Str.rfind c s + 1))) by lia.
    done.
Qed.

(** [s] is what precedes its last [c], then [c], then the rest. *)
Lemma basename_no_slash p : Str.mem "/" (os_path.basename p) = false.
Proof. apply drop_rfind_mem. Qed.

Lemma basename_id p : Str.mem "/" p = false → os_path.basename p = p.
Proof.
  intros Hm. unfold os_path.basename.
  destruct (rfind_range "/" p) as [[-> _]|[_ ?]]; [done|congruence].
Qed.

Lemma startswith_sep_mem b :
  Str.mem "/" b = false → Str.startswith b os_path.sep = false.
Proof.
  destruct b as [|c b]; simpl; [done|].
  destruct (Ascii.eqb c "/"); [done|]. done.
Qed.

Lemma endswith_app s t p :
  String.length t = String.length p →
  Str.endswith (s +:+ t) p = String.eqb t p.
Proof.
  intros Hl. unfold Str.endswith. rewrite slength_app, Hl.
  replace (String.length s + String.length p - String.length p)%nat
    with (String.length s) by lia.
  rewrite sdrop_app.
  by destruct (Nat.leb_spec (String.length p)
                 (String.length s + String.length p)); [|lia].
Qed.

Lemma app_not_empty s c t : s +:+ String c t ≠ EmptyString.
Proof. by destruct s. Qed.

(** Joining onto a directory whose name ends in an ordinary character
    inserts exactly one separator. *)
Lemma join_plain x c b :
  c ≠ "/"%char → Str.mem "/" b = false →
  os_path.join (x +:+ String c EmptyString) b
  = (x +:+ String c EmptyString) +:+ "/" +:+ b.
Proof.
  intros Hc Hb. unfold os_path.join.
  rewrite startswith_sep_mem by done.
  rewrite (endswith_app x (String c EmptyString) os_path.sep) by done.
  destruct (String.eqb_spec (x +:+ String c EmptyString) EmptyString)
    as [E|_]; [by destruct (app_not_empty _ _ _ E)|].
  simpl. by destruct (Ascii.eqb_spec c "/").
Qed.

(** Onto a directory name that is not empty and ends in no separator,
    [join] adds a separator and the component. *)
Lemma join_dir d b :
  d ≠ EmptyString → Str.endswith d "/" = false → Str.mem "/" b = false →
  os_path.join d b = d +:+ "/" +:+ b.
Proof.
  intros Hd He Hb. unfold os_path.join.
  rewrite startswith_sep_mem by done.
  change os_path.sep with "/". rewrite He.
  by destruct (String.eqb_spec d EmptyString).
Qed.

(** The name of a directory made by joining a constant word onto
    [data_dir] ends in the last character of that word. *)
Lemma join_word_last d w c :
  Str.mem "/" (w +:+ String c EmptyString) = false →
  ∃ x, os_path.join d (w +:+ String c EmptyString)
       = x +:+ String c EmptyString.
Proof.
  intros Hw. unfold os_path.join.
  rewrite startswith_sep_mem by done.
  destruct (_ || _).
  - exists (d +:+ w). by rewrite sapp_assoc.
  - exists (d +:+ os_path.sep +:+ w). by rewrite !sapp_assoc.
Qed.

End StringFacts.

(** ** The concrete operating system obeys the laws *)

Lemma sim_makedirs_isfile d s s' p :
  Sim.sim_makedirs d s = Some s' → Sim.sim_isfile p s' = Sim.sim_isfile p s.
Proof.
  unfold Sim.sim_makedirs. destruct (_ || _); [done|].
  by intros [= <-].
Qed.

Lemma sim_makedirs_isdir d s s' :
  Sim.sim_makedirs d s = Some s' → Sim.sim_isdir d s' = true.
Proof.
  unfold Sim.sim_makedirs. destruct (_ || _); [done|].
  intros [= <-]. unfold Sim.sim_isdir; simpl.
  rewrite bool_decide_eq_true_2; [done|]. apply list_elem_of_here.
Qed.

Lemma sim_is_child d b :
  d ≠ EmptyString → Str.mem "/" b = false →
  Sim.is_child d (d +:+ "/" +:+ b) = true.
Proof.
  intros Hd Hb. unfold Sim.is_child.
  rewrite <-(sapp_assoc d "/" b), startswith_app.
  replace (String.length d + 1)%nat with (String.length (d +:+ "/"))
    by (rewrite slength_app; done).
  rewrite sdrop_app, Hb.
  by destruct (String.eqb_spec d EmptyString).
Qed.

Lemma sim_isfile_parent d b s :
  d ≠ EmptyString → Str.mem "/" b = false →
  Sim.sim_isfile (d +:+ "/" +:+ b) s = true → Sim.sim_isdir d s = true.
Proof.
  intros Hd Hb Hf. unfold Sim.sim_isdir.
  apply orb_true_iff; right. apply existsb_exists.
  exists (d +:+ "/" +:+ b). split; [|by apply sim_is_child].
  apply list_elem_of_In. by apply bool_decide_eq_true in Hf.
Qed.

Global Instance sim_os : OS Sim.state := {|
  isfile := Sim.sim_isfile;
  isdir := Sim.sim_isdir;
  makedirs := Sim.sim_makedirs;
  makedirs_raised := Sim.sim_makedirs_raised;
  open_w := Sim.sim_open_w;
  makedirs_isfile := sim_makedirs_isfile;
  makedirs_isdir := sim_makedirs_isdir;
  isfile_parent := sim_isfile_parent
|}.

(** * The stem of a file name (section 4.3) *)

Ltac ascii_case :=
  match goal with
  | |- context [Ascii.eqb ?c ?l] =>
      is_var c;
      let E := fresh "E" in
      destruct (Ascii.eqb c l) eqn:E;
      [apply Ascii.eqb_eq in E; subst c|]
  end.

Ltac string_case :=
  match goal with
  | |- context [match ?s with EmptyString => _ | String _ _ => _ end] =>
      is_var s; destruct s
  | |- context [String.eqb ?s _] => is_var s; destruct s
  end.

(** The part of the pattern after the group matches exactly [tails]. *)
Lemma fastq_tail_match s cs :
  re.rmatch fastq_tail s cs (λ _ c, Some c)
  = if is_tail s then Some cs else None.
Proof.
  unfold fastq_tail, is_tail; simpl.
  repeat (first [ascii_case | string_case]; simpl; try reflexivity).
Qed.

Lemma tails_eq :
  tails = [".fq"; ".fq" +:+ String Str.newline EmptyString;
           ".fastq"; ".fastq" +:+ String Str.newline EmptyString;
           ".fq.gz"; ".fq.gz" +:+ String Str.newline EmptyString;
           ".fastq.gz"; ".fastq.gz" +:+ String Str.newline EmptyString].
Proof. reflexivity. Qed.

Lemma is_tail_elem t : is_tail t = true ↔ t ∈ tails.
Proof.
  unfold is_tail. rewrite existsb_exists. split.
  - intros (x & Hx & ->%String.eqb_eq). by apply list_elem_of_In.
  - intros Ht. exists t. split; [by apply list_elem_of_In|apply String.eqb_refl].
Qed.

Lemma tails_split t :
  t ∈ tails ↔ ∃ suf nl, suf ∈ fastq_suffixes ∧ nl ∈ eol_tails ∧ t = suf +:+ nl.
Proof.
  unfold tails. rewrite list_elem_of_bind. split.
  - intros (suf & (nl & ->%list_elem_of_singleton & Hnl)%list_elem_of_bind & Hs).
    eauto.
  - intros (suf & nl & Hs & Hnl & ->). exists suf. split; [|done].
    apply list_elem_of_bind. exists nl. split; [|done]. apply list_elem_of_here.
Qed.

(** No tail ends in a shorter tail: a match has only one way to split
    the basename. *)
Lemma tail_drop t n :
  t ∈ tails → (0 < n)%nat → is_tail (Str.drop n t) = false.
Proof.
  rewrite tails_eq.
  intros Ht Hn. destruct n as [|n]; [lia|clear Hn].
  repeat (apply elem_of_cons in Ht as [->|Ht];
          [do 12 (destruct n as [|n]; [reflexivity|]); reflexivity|]).
  by apply elem_of_nil in Ht.
Qed.

Lemma tail_no_newline_head t :
  t ∈ tails → ∃ c t', t = String c t' ∧ c ≠ Str.newline.
Proof.
  rewrite tails_eq. intros Ht.
  repeat (apply elem_of_cons in Ht as [->|Ht]; [by eexists _, _|]).
  by apply elem_of_nil in Ht.
Qed.

Lemma all_ok_any s : all_ok re.AnyChar s = negb (Str.mem Str.newline s).
Proof.
  induction s as [|c s IH]; simpl; [done|].
  rewrite IH. by destruct (Ascii.eqb c Str.newline).
Qed.

Section PlusGreedy.

Context {R : Type}.
Implicit Types (k : string → option R) (s : string).

Lemma plus_greedy_ext a s k1 k2 :
  (∀ s', k1 s' = k2 s') → re.plus_greedy a s k1 = re.plus_greedy a s k2.
Proof.
  intros Hk. induction s as [|c s IH]; simpl; [done|].
  by rewrite IH, Hk.
Qed.

(** A successful [a+] consumed a non-empty run of [a] and the
    continuation accepted the rest. *)
Lemma plus_greedy_Some a s k r :
  re.plus_greedy a s k = Some r →
  ∃ s1 s2, s = s1 +:+ s2 ∧ s1 ≠ EmptyString ∧ all_ok a s1 = true
           ∧ k s2 = Some r.
Proof.
  revert r. induction s as [|c s IH]; intros r; simpl; [done|].
  destruct (re.atom_ok a c) eqn:Hc; [|done].
  destruct (re.plus_greedy a s k) as [r'|] eqn:Hp.
  - intros [= <-]. destruct (IH r' eq_refl) as (s1 & s2 & -> & _ & Hok & Hk).
    exists (String c s1), s2. simpl. by rewrite Hc, Hok.
  - intros Hk. exists (String c EmptyString), s. simpl. by rewrite Hc.
Qed.

(** If the continuation accepts [s2] and rejects every proper suffix
    of it, [a+] on [s1 ++ s2] stops exactly after [s1]. *)
Lemma plus_greedy_app a s1 s2 k r :
  s1 ≠ EmptyString → all_ok a s1 = true → k s2 = Some r →
  (∀ n, (0 < n)%nat → k (Str.drop n s2) = None) →
  re.plus_greedy a (s1 +:+ s2) k = Some r.
Proof.
  intros Hne Hok Hk Hlong.
  assert (re.plus_greedy a s2 k = None) as Hs2.
  { destruct (re.plus_greedy a s2 k) as [r'|] eqn:Hp; [|done].
    apply plus_greedy_Some in Hp as (u & v & -> & Hu & _ & Hv).
    rewrite <-(sdrop_app u v), Hlong in Hv; [done|].
    destruct u; [done|simpl; lia]. }
  induction s1 as [|c s1 IH]; [done|]. simpl in *.
  apply andb_true_iff in Hok as [-> Hok].
  destruct s1 as [|c' s1].
  - simpl. by rewrite Hs2.
  - by rewrite IH.
Qed.

(** If the continuation rejects every suffix, so does [a+]. *)
Lemma plus_greedy_None a s k :
  (∀ s1 s2, s = s1 +:+ s2 → s1 ≠ EmptyString → all_ok a s1 = true →
            k s2 = None) →
  re.plus_greedy a s k = None.
Proof.
  intros Hk. destruct (re.plus_greedy a s k) as [r|] eqn:Hp; [|done].
  apply plus_greedy_Some in Hp as (s1 & s2 & -> & Hne & Hok & Hr).
  by rewrite (Hk s1 s2) in Hr.
Qed.

End PlusGreedy.

(** [re.match] on the pattern of [run_qc], unfolded. *)
Lemma fastq_match_unfold b :
  re.match_ fastq_pattern b
  = re.plus_greedy re.AnyChar b (λ s',
      if is_tail s'
      then Some [(1%nat, Str.take (String.length b - String.length s') b)]
      else None).
Proof.
  unfold re.match_, fastq_pattern.
  change (re.rmatch (re.Cat (re.Group 1 (re.Plus re.AnyChar)) fastq_tail) b []
            (λ _ cs, Some cs))
    with (re.plus_greedy re.AnyChar b (λ s',
            re.rmatch fastq_tail s'
              [(1%nat, Str.take (String.length b - String.length s') b)]
              (λ _ cs, Some cs))).
  apply plus_greedy_ext. intros s'. apply fastq_tail_match.
Qed.

(** A basename of the shape [stem ++ suffix] has stem [stem]. *)
Lemma qc_stem_stripped stem suf nl :
  dot_plus stem → suf ∈ fastq_suffixes → nl ∈ eol_tails →
  qc_stem (stem +:+ suf +:+ nl) = stem.
Proof.
  intros [Hne Hnl] Hsuf Hnl'. unfold qc_stem.
  assert (suf +:+ nl ∈ tails) as Ht by (apply tails_split; eauto).
  rewrite fastq_match_unfold.
  rewrite (plus_greedy_app _ stem (suf +:+ nl) _ [(1%nat, stem)]); [done|done|..].
  - by rewrite all_ok_any, Hnl.
  - rewrite (proj2 (is_tail_elem _) Ht), slength_app.
    replace (String.length stem + String.length (suf +:+ nl)
             - String.length (suf +:+ nl))%nat
      with (String.length stem) by lia.
    by rewrite stake_app.
  - intros n Hn. by rewrite tail_drop.
Qed.

(** A match splits the basename into a stem and a tail. *)
Lemma qc_stem_matched b m :
  re.match_ fastq_pattern b = Some m →
  ∃ stem t, b = stem +:+ t ∧ dot_plus stem ∧ t ∈ tails
            ∧ re.group m 1 = Some stem.
Proof.
  rewrite fastq_match_unfold.
  intros (s1 & s2 & -> & Hne & Hok & Hk)%plus_greedy_Some.
  destruct (is_tail s2) eqn:Ht; [|done]. injection Hk as <-.
  exists s1, s2. split_and!; [done| |by apply is_tail_elem|].
  - split; [done|]. rewrite all_ok_any in Hok. by destruct (Str.mem _ _).
  - simpl. rewrite slength_app.
    replace (String.length s1 + String.length s2 - String.length s2)%nat
      with (String.length s1) by lia.
    by rewrite stake_app.
Qed.

(** The stem relation holds of what [run_qc] computes, and of nothing
    else. *)
Lemma qc_stem_StemOf b : StemOf b (qc_stem b).
Proof.
  destruct (re.match_ fastq_pattern b) as [m|] eqn:Hm.
  - destruct (qc_stem_matched b m Hm) as (stem & t & -> & Hd & Ht & Hg).
    apply tails_split in Ht as (suf & nl & Hsuf & Hnl & ->).
    rewrite qc_stem_stripped by done. by constructor.
  - replace (qc_stem b) with b by (unfold qc_stem; by rewrite Hm).
    apply stem_verbatim. intros stem suf nl Hd Hsuf Hnl ->.
    pose proof (qc_stem_stripped stem suf nl Hd Hsuf Hnl) as Hq.
    unfold qc_stem in Hq. rewrite Hm in Hq.
    destruct Hd as [Hne _]. apply Hne.
    apply (f_equal String.length) in Hq. rewrite slength_app in Hq.
    assert (suf +:+ nl ∈ tails) as Ht by (apply tails_split; eauto).
    destruct (tail_no_newline_head _ Ht) as (c & t' & Ht' & _).
    rewrite Ht' in Hq. simpl in Hq. lia.
Qed.

Lemma StemOf_unique b s : StemOf b s → s = qc_stem b.
Proof.
  destruct 1 as [stem suf nl Hd Hsuf Hnl|b Hno].
  - by rewrite qc_stem_stripped.
  - destruct (re.match_ fastq_pattern b) as [m|] eqn:Hm.
    + destruct (qc_stem_matched b m Hm) as (stem & t & -> & Hd & Ht & Hg).
      apply tails_split in Ht as (suf & nl & Hsuf & Hnl & ->).
      by destruct (Hno stem suf nl).
    + unfold qc_stem. by rewrite Hm.
Qed.

(** The stem is a piece of the basename, so it holds no separator. *)
Lemma qc_stem_no_slash b :
  Str.mem "/" b = false → Str.mem "/" (qc_stem b) = false.
Proof.
  intros Hb. destruct (qc_stem_StemOf b) as [stem suf nl _ _ _|]; [|done].
  rewrite smem_app in Hb. by apply orb_false_iff in Hb as [? _].
Qed.

(** * The loops of [get_files] and [run_qc] *)

Lemma dedup_from_elem seen l x :
  x ∈ dedup_from seen l ↔ x ∈ l ∧ x ∉ seen.
Proof.
  revert seen. induction l as [|y l IH]; intros seen; simpl.
  - rewrite elem_of_nil. tauto.
  - case_bool_decide as Hy.
    + rewrite IH, elem_of_cons. split; [tauto|].
      intros [[->|?] ?]; tauto.
    + rewrite !elem_of_cons, IH, elem_of_app, list_elem_of_singleton.
      destruct (decide (x = y)) as [->|Hxy]; [|tauto].
      split; [intros _; split; [by left|done]|by left].
Qed.

Lemma dedup_from_NoDup seen l : NoDup (dedup_from seen l).
Proof.
  revert seen. induction l as [|y l IH]; intros seen; simpl.
  - constructor.
  - case_bool_decide; [done|]. constructor; [|done].
    rewrite dedup_from_elem, elem_of_app, list_elem_of_singleton.
    intros [_ Hn]. apply Hn. by right.
Qed.

Section PipelineFacts.

Context {fs : Type} `{!OS fs}.
Variable R : list string → Z → Z → fs → exn + fs.

Implicit Types (w : World fs) (s : fs).

Lemma set_fs_id w : set_fs (w_fs w) w = w.
Proof. by destruct w. Qed.

Lemma log_msgs_nil w : log_msgs [] w = w.
Proof.
  destruct w as [? ? ? ? dbg ? ?]. unfold log_msgs; simpl.
  by destruct dbg; rewrite ?app_nil_r.
Qed.

Lemma log_msgs_app m1 m2 w : log_msgs m2 (log_msgs m1 w) = log_msgs (m1 ++ m2) w.
Proof.
  destruct w as [? ? ? ? dbg ? ?]. unfold log_msgs; simpl.
  by destruct dbg, m1, m2; rewrite ?app_assoc, ?app_nil_r.
Qed.

Lemma get_files_loop_spec raw_dir urls expected todo w :
  get_files_loop raw_dir (VStr <$> urls) expected todo w
  = (inr (expected ++ dedup_from expected (dests raw_dir urls),
          todo ++ gf_todo raw_dir (w_fs w) expected urls),
     log_msgs (gf_log raw_dir (w_fs w) expected urls) w).
Proof.
  revert expected todo w.
  induction urls as [|u urls IH]; intros expected todo w; simpl.
  - by rewrite !app_nil_r, log_msgs_nil.
  - case_bool_decide as Hin; [apply IH|].
    unfold mbind, M_bind, bind, os_path_isfile, logging_debug; simpl.
    destruct (isfile _ (w_fs w)) eqn:Hf.
    + rewrite IH; simpl. by rewrite log_msgs_app, <-!app_assoc.
    + rewrite IH; simpl. by rewrite log_msgs_app, <-!app_assoc.
Qed.

Lemma rq_todo_cons qc_dir s f files :
  rq_todo qc_dir s (f :: files)
  = (if isfile (qc_path qc_dir f) s then []
     else [qc_tmpl (qc_source f) (qc_path qc_dir f)])
    ++ rq_todo qc_dir s files.
Proof.
  unfold rq_todo. rewrite filter_cons.
  destruct (isfile (qc_path qc_dir f) s); by case_decide.
Qed.

Lemma run_qc_loop_spec qc_dir files expected todo w :
  run_qc_loop qc_dir files expected todo w
  = (inr (expected ++ (qc_path qc_dir <$> files),
          todo ++ rq_todo qc_dir (w_fs w) files),
     log_msgs (rq_log qc_dir (w_fs w) files) w).
Proof.
  revert expected todo w.
  induction files as [|f files IH]; intros expected todo w; simpl.
  - by rewrite !app_nil_r, log_msgs_nil.
  - unfold mbind, M_bind, bind, os_path_isfile, logging_debug; simpl.
    rewrite rq_todo_cons. unfold rq_log; simpl.
    destruct (isfile _ (w_fs w)) eqn:Hf.
    + rewrite IH; simpl. by rewrite log_msgs_app, <-!app_assoc.
    + rewrite IH; simpl. by rewrite log_msgs_app, <-!app_assoc.
Qed.

Lemma get_files_eq urls data_dir w :
  get_files R (VStr <$> urls) data_dir w
  = let raw_dir := raw_dir_of data_dir in
    match ensure_dir raw_dir (w_fs w) with
    | None =>
        (inl (OSError raw_dir), set_fs (makedirs_raised raw_dir (w_fs w)) w)
    | Some s1 =>
        finish R (dedup_first (dests raw_dir urls))
               (gf_todo raw_dir s1 [] urls)
               (log_msgs (gf_log raw_dir s1 [] urls) (set_fs s1 w))
    end.
Proof.
  unfold get_files, raw_dir_of, ensure_dir. simpl.
  unfold mbind at 1, M_bind at 1, bind at 1, os_path_isdir. simpl.
  unfold mbind at 1, M_bind at 1, bind at 1.
  assert (∀ s1 w1, w_fs w1 = s1 →
    (mbind (M := M fs) (λ '(expected, todo),
       (match todo with [] => ret () | _ :: _ => run_batch R todo 1 8 end);;
       check_expected expected)
       (get_files_loop (os_path.join data_dir "raw") (VStr <$> urls) [] []))
      w1
    = finish R (dedup_first (dests (os_path.join data_dir "raw") urls))
             (gf_todo (os_path.join data_dir "raw") s1 [] urls)
             (log_msgs (gf_log (os_path.join data_dir "raw") s1 [] urls) w1))
    as Hrest.
  { intros s1 w1 <-. unfold mbind at 1, M_bind at 1, bind at 1.
    rewrite get_files_loop_spec. simpl. unfold finish, dedup_first.
    destruct (gf_todo _ _ _ _) as [|c todo]; [done|].
    unfold mbind, M_bind, bind, run_batch. simpl.
    by destruct (R _ _ _ _). }
  destruct (isdir _ (w_fs w)) eqn:Hd; simpl.
  - rewrite (Hrest (w_fs w) w eq_refl). by rewrite set_fs_id.
  - unfold os_makedirs. destruct (makedirs _ _) as [s1|]; [|done].
    by rewrite (Hrest s1 (set_fs s1 w) eq_refl).
Qed.

Lemma run_qc_eq files data_dir w :
  run_qc R files data_dir w
  = let qc_dir := qc_dir_of data_dir in
    match ensure_dir qc_dir (w_fs w) with
    | None =>
        (inl (OSError qc_dir), set_fs (makedirs_raised qc_dir (w_fs w)) w)
    | Some s1 =>
        finish R (qc_path qc_dir <$> files)
               (rq_todo qc_dir s1 files)
               (log_msgs (rq_log qc_dir s1 files) (set_fs s1 w))
    end.
Proof.
  unfold run_qc, qc_dir_of, ensure_dir. simpl.
  unfold mbind at 1, M_bind at 1, bind at 1, os_path_isdir. simpl.
  unfold mbind at 1, M_bind at 1, bind at 1.
  assert (∀ s1 w1, w_fs w1 = s1 →
    (mbind (M := M fs) (λ '(expected, todo),
       (match todo with [] => ret () | _ :: _ => run_batch R todo 1 8 end);;
       check_expected expected)
       (run_qc_loop (os_path.join data_dir "qc") files [] []))
      w1
    = finish R (qc_path (os_path.join data_dir "qc") <$> files)
             (rq_todo (os_path.join data_dir "qc") s1 files)
             (log_msgs (rq_log (os_path.join data_dir "qc") s1 files) w1))
    as Hrest.
  { intros s1 w1 <-. unfold mbind at 1, M_bind at 1, bind at 1.
    rewrite run_qc_loop_spec. simpl. unfold finish.
    destruct (rq_todo _ _ _) as [|c todo]; [done|].
    unfold mbind, M_bind, bind, run_batch. simpl.
    by destruct (R _ _ _ _). }
  destruct (isdir _ (w_fs w)) eqn:Hd; simpl.
  - rewrite (Hrest (w_fs w) w eq_refl). by rewrite set_fs_id.
  - unfold os_makedirs. destruct (makedirs _ _) as [s1|]; [|done].
    by rewrite (Hrest s1 (set_fs s1 w) eq_refl).
Qed.

Lemma ensure_dir_isfile d s s1 p :
  ensure_dir d s = Some s1 → isfile p s1 = isfile p s.
Proof.
  unfold ensure_dir. destruct (isdir d s); [by intros [= <-]|].
  apply makedirs_isfile.
Qed.

Lemma ensure_dir_isdir d s s1 : ensure_dir d s = Some s1 → isdir d s1 = true.
Proof.
  unfold ensure_dir. destruct (isdir d s) eqn:Hd; [by intros [= <-]|].
  apply makedirs_isdir.
Qed.

Lemma missing_of_nil expected s :
  missing_of expected s = [] ↔ ∀ p, p ∈ expected → isfile p s = true.
Proof.
  unfold missing_of. induction expected as [|q l IH]; simpl.
  - split; [|done]. intros _ p Hp. by apply elem_of_nil in Hp.
  - rewrite filter_cons. case_decide as Hq.
    + split; [done|]. intros Hall.
      rewrite (Hall q) in Hq by apply list_elem_of_here. done.
    + rewrite IH. split.
      * intros Hall p [->|Hp]%elem_of_cons; [|by apply Hall].
        by destruct (isfile q s).
      * intros Hall p Hp. apply Hall. by apply list_elem_of_further.
Qed.

Lemma check_expected_world expected w : (check_expected expected w).2 = w.
Proof. unfold check_expected. by destruct (missing_of _ _). Qed.

Lemma check_expected_inr expected w paths w' :
  check_expected expected w = (inr paths, w') →
  paths = expected ∧ w' = w ∧ missing_of expected (w_fs w) = [].
Proof.
  unfold check_expected. destruct (missing_of _ _); [|done].
  by intros [= <- <-].
Qed.

Lemma check_expected_ok expected w :
  missing_of expected (w_fs w) = [] →
  check_expected expected w = (inr expected, w).
Proof. unfold check_expected. by intros ->. Qed.

(** Once the batch has completed, [finish] is the check alone. *)
Lemma finish_done expected todo w s2 :
  batch_done R todo (w_fs w) s2 →
  (finish R expected todo w).1
  = (check_expected expected (set_fs s2 w)).1.
Proof.
  unfold batch_done, finish. destruct todo as [|c todo].
  - intros ->. by rewrite set_fs_id.
  - intros ->. unfold check_expected. simpl. by destruct (missing_of _ _).
Qed.

(** What a successful [finish] tells. *)
Lemma finish_inr expected todo w paths w' :
  finish R expected todo w = (inr paths, w') →
  paths = expected
  ∧ missing_of expected (w_fs w') = []
  ∧ w_batches w' = w_batches w ++ match todo with [] => [] | _ => [todo] end
  ∧ batch_done R todo (w_fs w) (w_fs w').
Proof.
  unfold finish, batch_done. destruct todo as [|c todo].
  - intros (-> & -> & Hm)%check_expected_inr. by rewrite app_nil_r.
  - destruct (R _ _ _ _) as [e|s]; [done|].
    by intros (-> & -> & Hm)%check_expected_inr.
Qed.

Lemma gf_todo_elem raw_dir s seen urls c :
  c ∈ gf_todo raw_dir s seen urls →
  ∃ u, u ∈ urls
       ∧ c = iget_cmd u (os_path.join raw_dir (os_path.basename u))
       ∧ isfile (os_path.join raw_dir (os_path.basename u)) s = false.
Proof.
  revert seen. induction urls as [|u urls IH]; intros seen; simpl.
  - by intros ?%elem_of_nil.
  - assert (∀ seen', c ∈ gf_todo raw_dir s seen' urls →
      ∃ u0, u0 ∈ u :: urls
        ∧ c = iget_cmd u0 (os_path.join raw_dir (os_path.basename u0))
        ∧ isfile (os_path.join raw_dir (os_path.basename u0)) s = false)
      as Hrec.
    { intros seen' (u0 & ? & ?)%IH. exists u0.
      split; [by apply list_elem_of_further|done]. }
    case_bool_decide; [apply Hrec|].
    destruct (isfile _ s) eqn:Hf; simpl; [apply Hrec|].
    intros [->|Hc]%elem_of_cons; [|by eapply Hrec].
    exists u. split; [apply list_elem_of_here|done].
Qed.

Lemma gf_todo_nil raw_dir s seen urls :
  (∀ p, p ∈ dedup_from seen (dests raw_dir urls) → isfile p s = true) →
  gf_todo raw_dir s seen urls = [].
Proof.
  revert seen. induction urls as [|u urls IH]; intros seen; simpl; [done|].
  case_bool_decide; [apply IH|].
  intros Hall. rewrite (Hall _ (list_elem_of_here _ _)). simpl.
  apply IH. intros p Hp. apply Hall. by apply list_elem_of_further.
Qed.

(** The destination of a URL, spelled out. *)
Lemma raw_dest_eq data_dir u :
  raw_dest data_dir u
  = raw_dir_of data_dir +:+ "/" +:+ os_path.basename u.
Proof.
  unfold raw_dest, raw_dir_of.
  destruct (join_word_last data_dir "ra" "w" eq_refl) as [x Hx].
  change ("ra" +:+ "w") with "raw" in Hx. rewrite Hx.
  apply join_plain; [done|apply basename_no_slash].
Qed.

Lemma raw_dir_not_empty data_dir : raw_dir_of data_dir ≠ EmptyString.
Proof.
  unfold raw_dir_of.
  destruct (join_word_last data_dir "ra" "w" eq_refl) as [x Hx].
  change ("ra" +:+ "w") with "raw" in Hx. rewrite Hx.
  apply app_not_empty.
Qed.

(** The output of a file, spelled out. *)
Lemma qc_path_eq data_dir f :
  qc_path (qc_dir_of data_dir) f
  = qc_dir_of data_dir +:+ "/" +:+ qc_stem (os_path.basename f) +:+ ".fa".
Proof.
  unfold qc_path, qc_dir_of.
  destruct (join_word_last data_dir "q" "c" eq_refl) as [x Hx].
  change ("q" +:+ "c") with "qc" in Hx. rewrite Hx.
  apply join_plain; [done|].
  rewrite smem_app, qc_stem_no_slash; [done|apply basename_no_slash].
Qed.

End PipelineFacts.

(** A run whose first component is known, as a pair. *)
Lemma run_pair {A B} (x : A * B) a : x.1 = a → x = (a, x.2).
Proof. intros <-. by destruct x. Qed.

(** * Section 4.3: stems, output paths and queued pipelines *)

(** C3.  The stem of a basename is what is left when a suffix [.fq],
    [.fastq], [.fq.gz] or [.fastq.gz] (lower case only, at the end of
    the name, after at least one character) is stripped, and the
    basename itself when it has no such suffix; the output path of a file
    is always [<data_dir>/qc/<stem>.fa]; [sample.fastq.gz] and
    [sample.fq] have stem [sample], [weird.name.txt] is its own stem and
    its output is [<qc>/weird.name.txt.fa]. *)
Theorem qc_stem_and_output :
  (∀ b, StemOf b (qc_stem b))
  ∧ (∀ (fs : Type) (H : OS fs) (R : list string → Z → Z → fs → exn + fs)
       files data_dir w paths w',
       run_qc R files data_dir w = (inr paths, w') →
       paths = (λ f, qc_dir_of data_dir +:+ "/"
                     +:+ qc_stem (os_path.basename f) +:+ ".fa") <$> files)
  ∧ (∀ data_dir,
       data_dir ≠ EmptyString → Str.endswith data_dir "/" = false →
       qc_dir_of data_dir = data_dir +:+ "/qc")
  ∧ qc_stem "sample.fastq.gz" = "sample"
  ∧ qc_stem "sample.fq" = "sample"
  ∧ qc_stem "sample.FASTQ" = "sample.FASTQ"
  ∧ qc_stem "weird.name.txt" = "weird.name.txt"
  ∧ (∀ data_dir,
       qc_path (qc_dir_of data_dir) "weird.name.txt"
       = qc_dir_of data_dir +:+ "/weird.name.txt.fa").
Proof.
  split_and!; try reflexivity.
  - apply qc_stem_StemOf.
  - intros fs H R files data_dir w paths w'. rewrite run_qc_eq. simpl.
    destruct (ensure_dir _ _) as [s1|]; [|done].
    intros (-> & _)%finish_inr.
    apply list_fmap_ext. intros _ f _. apply qc_path_eq.
  - intros data_dir Hd He. by apply join_dir.
  - intros data_dir. by rewrite qc_path_eq.
Qed.

Lemma qc_stem_and_output_witness :
  ∃ w',
    run_qc Sim.run_ok ["/data/raw/reads.fastq.gz"; "/data/raw/weird.name.txt"]
      "/data" (Sim.world Sim.empty []) = (inr ["/data/qc/reads.fa"; "/data/qc/weird.name.txt.fa"], w')
    ∧ ["/data/qc/reads.fa"; "/data/qc/weird.name.txt.fa"]
      = (λ f, qc_dir_of "/data" +:+ "/"
              +:+ qc_stem (os_path.basename f) +:+ ".fa")
          <$> ["/data/raw/reads.fastq.gz"; "/data/raw/weird.name.txt"].
Proof.
  eexists. split; [by apply run_pair; vm_compute|].
  eapply (proj1 (proj2 qc_stem_and_output) _ _ Sim.run_ok _ "/data"
            (Sim.world Sim.empty [])).
  by apply run_pair; vm_compute.
Defined.

(** C8.  Whenever the output directory is in place, the batch [run_qc]
    submits holds, for every input file whose output is not yet a
    regular file and in input order, exactly the pipeline that starts
    with [gunzip -c <file>] when the basename ends in [.gz] and with
    [cat <file>] otherwise, goes through the three filters and is
    redirected to the output path; nothing is submitted when no output
    is lacking. *)
Theorem run_qc_commands {fs : Type} `{!OS fs}
    (R : list string → Z → Z → fs → exn + fs) files data_dir w s1 :
  ensure_dir (qc_dir_of data_dir) (w_fs w) = Some s1 →
  let out f := qc_dir_of data_dir +:+ "/"
               +:+ qc_stem (os_path.basename f) +:+ ".fa" in
  let cmd f :=
    (if Str.endswith (os_path.basename f) ".gz"
     then "gunzip -c " +:+ f else "cat " +:+ f)
    +:+ " | fastq_quality_filter -q 20 -p 80 -Q 33"
    +:+ " | fastx_clipper -l 80 | fastx_collapser > " +:+ out f in
  let todo := cmd <$> filter (λ f, isfile (out f) (w_fs w) = false) files in
  w_batches (run_qc R files data_dir w).2
  = w_batches w ++ match todo with [] => [] | _ => [todo] end.
Proof.
  intros Hdir out cmd todo. rewrite run_qc_eq. simpl. rewrite Hdir.
  assert (rq_todo (qc_dir_of data_dir) s1 files = todo) as ->.
  { unfold rq_todo, todo.
    rewrite (list_filter_iff
      (λ f, isfile (qc_path (qc_dir_of data_dir) f) s1 = false)
      (λ f, isfile (out f) (w_fs w) = false)).
    - apply list_fmap_ext. intros _ f _. unfold cmd, out.
      rewrite <-qc_path_eq. unfold qc_tmpl, qc_source.
      by destruct (Str.endswith _ _); rewrite !sapp_assoc.
    - intros f. unfold out.
      by rewrite <-qc_path_eq, (ensure_dir_isfile _ _ _ _ Hdir). }
  unfold finish. destruct todo as [|c todo']; simpl.
  - by rewrite check_expected_world, app_nil_r.
  - destruct (R _ _ _ _); [done|]. by rewrite check_expected_world.
Qed.

Lemma run_qc_commands_witness :
  w_batches
    (run_qc Sim.run_noop ["/data/raw/a.fastq.gz"; "/data/raw/b.fq"] "/data"
       (Sim.world Sim.empty [])).2
  = [["gunzip -c /data/raw/a.fastq.gz | fastq_quality_filter -q 20 -p 80 -Q 33 | fastx_clipper -l 80 | fastx_collapser > /data/qc/a.fa";
      "cat /data/raw/b.fq | fastq_quality_filter -q 20 -p 80 -Q 33 | fastx_clipper -l 80 | fastx_collapser > /data/qc/b.fa"]].
Proof.
  rewrite (run_qc_commands Sim.run_noop _ "/data" (Sim.world Sim.empty [])
             {| Sim.files := []; Sim.dirs := ["/data/qc"] |});
    reflexivity.
Defined.

(** C10.  [run_qc] does not deduplicate: the list it returns has one
    entry per input file.  With [a/sample.fastq] and [b/sample.fq] and
    no [<qc>/sample.fa] yet, that path is returned twice, and one batch
    holds two pipelines redirected to it. *)
Theorem run_qc_no_dedup {fs : Type} `{!OS fs}
    (R : list string → Z → Z → fs → exn + fs) files data_dir w paths w' :
  run_qc R files data_dir w = (inr paths, w') →
  length paths = length files
  ∧ (run_qc Sim.run_ok ["a/sample.fastq"; "b/sample.fq"] "/data"
       (Sim.world Sim.empty [])).1
    = inr ["/data/qc/sample.fa"; "/data/qc/sample.fa"]
  ∧ w_batches (run_qc Sim.run_ok ["a/sample.fastq"; "b/sample.fq"] "/data"
                 (Sim.world Sim.empty [])).2
    = [["cat a/sample.fastq | fastq_quality_filter -q 20 -p 80 -Q 33 | fastx_clipper -l 80 | fastx_collapser > /data/qc/sample.fa";
        "cat b/sample.fq | fastq_quality_filter -q 20 -p 80 -Q 33 | fastx_clipper -l 80 | fastx_collapser > /data/qc/sample.fa"]].
Proof.
  intros Hrun. split; [|split; reflexivity].
  rewrite run_qc_eq in Hrun. simpl in Hrun.
  destruct (ensure_dir _ _) as [s1|]; [|done].
  apply finish_inr in Hrun as (-> & _). by rewrite length_fmap.
Qed.

Lemma run_qc_no_dedup_witness :
  length ["/data/qc/sample.fa"; "/data/qc/sample.fa"]
  = length ["a/sample.fastq"; "b/sample.fq"].
Proof.
  eapply (run_qc_no_dedup Sim.run_ok ["a/sample.fastq"; "b/sample.fq"] "/data"
            (Sim.world Sim.empty [])).
  by apply run_pair; vm_compute.
Defined.

(** * Section 4.2: file retrieval *)

(** C4.  What [get_files] returns for a list of URLs is the list of
    destinations [<data_dir>/raw/basename(url)], each kept once, at its
    first occurrence and in that order; two URLs have the same
    destination exactly when they have the same basename; every
    returned path starts with [<data_dir>/raw/].  Here [<data_dir>/raw]
    is [os.path.join(data_dir, 'raw')], which is [data_dir], a
    separator and [raw] unless [data_dir] already ends in a
    separator. *)
Theorem get_files_paths {fs : Type} `{!OS fs}
    (R : list string → Z → Z → fs → exn + fs) urls data_dir w paths w' :
  get_files R (VStr <$> urls) data_dir w = (inr paths, w') →
  paths = dedup_first (raw_dest data_dir <$> urls)
  ∧ NoDup paths
  ∧ (∀ p, p ∈ paths ↔ ∃ u, u ∈ urls ∧ p = raw_dest data_dir u)
  ∧ (∀ u, raw_dest data_dir u
          = raw_dir_of data_dir +:+ "/" +:+ os_path.basename u)
  ∧ (data_dir ≠ EmptyString → Str.endswith data_dir "/" = false →
     raw_dir_of data_dir = data_dir +:+ "/raw")
  ∧ (∀ u1 u2, raw_dest data_dir u1 = raw_dest data_dir u2
              ↔ os_path.basename u1 = os_path.basename u2)
  ∧ Forall (λ p, Str.startswith p (raw_dir_of data_dir +:+ "/") = true) paths.
Proof.
  rewrite get_files_eq. simpl.
  destruct (ensure_dir _ _) as [s1|]; [|done].
  intros (-> & _)%finish_inr.
  change (dests (raw_dir_of data_dir) urls) with (raw_dest data_dir <$> urls).
  assert (∀ p, p ∈ dedup_first (raw_dest data_dir <$> urls)
               ↔ ∃ u, u ∈ urls ∧ p = raw_dest data_dir u) as Helem.
  { intros p. unfold dedup_first.
    rewrite dedup_from_elem, list_elem_of_fmap. split.
    - intros [(u & -> & Hu) _]. eauto.
    - intros (u & Hu & ->). split; [eauto|]. by intros ?%elem_of_nil. }
  split_and!; [done|apply dedup_from_NoDup|done|apply raw_dest_eq| | |].
  - intros Hd He. by apply join_dir.
  - intros u1 u2. rewrite !raw_dest_eq. split; [|by intros ->].
    intros Heq. by simplify_eq.
  - apply Forall_forall. intros p (u & _ & ->)%Helem.
    rewrite raw_dest_eq, <-sapp_assoc. apply startswith_app.
Qed.

Lemma get_files_paths_witness :
  ["/data/raw/a.fq"; "/data/raw/b.fq"]
  = dedup_first (raw_dest "/data"
                   <$> ["ftp://h/x/a.fq"; "ftp://g/y/a.fq"; "ftp://h/b.fq"]).
Proof.
  eapply (get_files_paths Sim.run_ok
            ["ftp://h/x/a.fq"; "ftp://g/y/a.fq"; "ftp://h/b.fq"] "/data"
            (Sim.world Sim.empty [])).
  by apply run_pair; vm_compute.
Defined.

(** C5.  A destination that is already a regular file is never queued:
    every command of the batch [get_files] submits fetches a file that
    was not there.  And when a run of [get_files] has succeeded, a
    second run with the same URLs and data directory, started where the
    first one ended, submits no batch, changes no file and returns the
    same list. *)
Theorem get_files_idempotent {fs : Type} `{!OS fs}
    (R : list string → Z → Z → fs → exn + fs) urls data_dir w paths w1 :
  get_files R (VStr <$> urls) data_dir w = (inr paths, w1) →
  (∃ todo,
      w_batches w1 = w_batches w ++ match todo with [] => [] | _ => [todo] end
      ∧ ∀ c, c ∈ todo →
          ∃ u, u ∈ urls ∧ c = iget_cmd u (raw_dest data_dir u)
               ∧ isfile (raw_dest data_dir u) (w_fs w) = false)
  ∧ ∃ w2,
      get_files R (VStr <$> urls) data_dir w1 = (inr paths, w2)
      ∧ w_batches w2 = w_batches w1
      ∧ w_fs w2 = w_fs w1.
Proof.
  rewrite get_files_eq. simpl.
  destruct (ensure_dir _ (w_fs w)) as [s1|] eqn:Hdir; [|done].
  intros (-> & Hmiss & Hb & Hdone)%finish_inr.
  simpl in Hb. split.
  { eexists. split; [exact Hb|].
    intros c (u & Hu & -> & Hf)%gf_todo_elem. exists u.
    by rewrite <-(ensure_dir_isfile _ _ _ _ Hdir). }
  rewrite missing_of_nil in Hmiss.
  assert (isdir (raw_dir_of data_dir) (w_fs w1) = true) as Hisdir.
  { destruct urls as [|u urls].
    - simpl in Hdone. rewrite Hdone. simpl.
      by apply (ensure_dir_isdir _ _ _ Hdir).
    - apply (isfile_parent _ (os_path.basename u));
        [apply raw_dir_not_empty|apply basename_no_slash|].
      rewrite <-raw_dest_eq. apply Hmiss.
      unfold dedup_first, dests. simpl. apply list_elem_of_here. }
  rewrite get_files_eq. simpl. unfold ensure_dir. rewrite Hisdir.
  rewrite gf_todo_nil by done. unfold finish.
  rewrite check_expected_ok; [|simpl; by apply missing_of_nil].
  eexists. split; [done|]. by simpl.
Qed.

Lemma get_files_idempotent_witness :
  ∃ w2,
    get_files Sim.run_ok (VStr <$> ["ftp://h/a.fq"; "ftp://h/b.fq"]) "/data"
      (get_files Sim.run_ok (VStr <$> ["ftp://h/a.fq"; "ftp://h/b.fq"])
         "/data" (Sim.world Sim.empty [])).2
    = (inr ["/data/raw/a.fq"; "/data/raw/b.fq"], w2)
    ∧ w_batches w2 = [["iget -f ftp://h/a.fq /data/raw/a.fq";
                       "iget -f ftp://h/b.fq /data/raw/b.fq"]].
Proof.
  destruct (get_files_idempotent Sim.run_ok ["ftp://h/a.fq"; "ftp://h/b.fq"]
              "/data" (Sim.world Sim.empty [])
              ["/data/raw/a.fq"; "/data/raw/b.fq"]
              (get_files Sim.run_ok (VStr <$> ["ftp://h/a.fq"; "ftp://h/b.fq"])
                 "/data" (Sim.world Sim.empty [])).2)
    as [_ (w2 & Hrun & Hb & _)].
  - by apply run_pair; vm_compute.
  - exists w2. split; [exact Hrun|]. rewrite Hb. reflexivity.
Defined.

(** C6.  Once the batch has completed, or when nothing was queued, both
    [get_files] and [run_qc] return the whole list of expected paths if
    each of them is a regular file, and otherwise raise the exception
    whose message lists all the expected paths that are not, in order;
    the two checks are the same function of the expected list. *)
Theorem postcondition_check {fs : Type} `{!OS fs}
    (R : list string → Z → Z → fs → exn + fs) data_dir w :
  let check expected s2 :=
    match filter (λ p, isfile p s2 = false) expected with
    | [] => inr expected
    | missing =>
        inl (Exception ("Failed to download " +:+ String.concat ", " missing))
    end in
  (∀ urls s1 s2,
     ensure_dir (raw_dir_of data_dir) (w_fs w) = Some s1 →
     batch_done R (gf_todo (raw_dir_of data_dir) s1 [] urls) s1 s2 →
     (get_files R (VStr <$> urls) data_dir w).1
     = check (dedup_first (raw_dest data_dir <$> urls)) s2)
  ∧ (∀ files s1 s2,
     ensure_dir (qc_dir_of data_dir) (w_fs w) = Some s1 →
     batch_done R (rq_todo (qc_dir_of data_dir) s1 files) s1 s2 →
     (run_qc R files data_dir w).1
     = check (qc_path (qc_dir_of data_dir) <$> files) s2)
  ∧ (∀ expected s2,
       (∃ p, p ∈ expected ∧ isfile p s2 = false)
       ↔ ∃ msg, check expected s2 = inl (Exception msg)).
Proof.
  intros check.
  assert (∀ expected w0, (check_expected expected w0).1
                         = check expected (w_fs w0)) as Hcheck.
  { intros expected w0. unfold check_expected, check, missing_of.
    rewrite (list_filter_iff (λ f, negb (isfile f (w_fs w0)) = true)
               (λ p, isfile p (w_fs w0) = false)).
    - by destruct (filter _ _).
    - intros p. by destruct (isfile p (w_fs w0)). }
  split_and!.
  - intros urls s1 s2 Hdir Hdone. rewrite get_files_eq. simpl. rewrite Hdir.
    rewrite (finish_done _ _ _ _ s2) by done. by rewrite Hcheck.
  - intros files s1 s2 Hdir Hdone. rewrite run_qc_eq. simpl. rewrite Hdir.
    rewrite (finish_done _ _ _ _ s2) by done. by rewrite Hcheck.
  - intros expected s2. unfold check.
    destruct (filter _ expected) as [|q l] eqn:Hf.
    + split; [|by intros [? ?]]. intros (p & Hp & Hfile).
      assert (p ∈ filter (λ p, isfile p s2 = false) expected) as Hin
        by by apply list_elem_of_filter.
      rewrite Hf in Hin. by apply elem_of_nil in Hin.
    + split; [by eauto|]. intros _. exists q.
      assert (q ∈ filter (λ p, isfile p s2 = false) expected) as Hin
        by (rewrite Hf; apply list_elem_of_here).
      apply list_elem_of_filter in Hin. tauto.
Qed.

Lemma postcondition_check_witness :
  (get_files Sim.run_noop (VStr <$> ["ftp://host/reads.fastq.gz"]) "/data"
     (Sim.world Sim.empty [])).1
  = inl (Exception "Failed to download /data/raw/reads.fastq.gz")
  ∧ (run_qc Sim.run_ok ["/data/raw/reads.fastq.gz"] "/data"
       (Sim.world Sim.empty [])).1
    = inr ["/data/qc/reads.fa"].
Proof.
  pose proof (postcondition_check Sim.run_noop "/data" (Sim.world Sim.empty []))
    as [Hget _].
  pose proof (postcondition_check Sim.run_ok "/data" (Sim.world Sim.empty []))
    as [_ [Hqc _]].
  split.
  - rewrite (Hget _ {| Sim.files := []; Sim.dirs := ["/data/raw"] |}
               {| Sim.files := []; Sim.dirs := ["/data/raw"] |});
      reflexivity.
  - rewrite (Hqc _ {| Sim.files := []; Sim.dirs := ["/data/qc"] |}
               {| Sim.files := ["/data/qc/reads.fa"];
                  Sim.dirs := ["/data/qc"] |});
      reflexivity.
Defined.

(** * Section 4.1: metadata lookup *)

Lemma foldl_zip_is_Some (names : list string) (r : record) (d : row) k :
  is_Some (foldl (λ d kv, <[Some kv.1 := VStr kv.2]> d) d (zip names r)
           !! Some k)
  ↔ is_Some (d !! Some k) ∨ k ∈ take (length r) names.
Proof.
  revert r d. induction names as [|n names IH]; intros r d; simpl.
  - rewrite take_nil, elem_of_nil. tauto.
  - destruct r as [|x r]; simpl; [rewrite elem_of_nil; tauto|].
    rewrite IH, lookup_insert_is_Some, elem_of_cons.
    destruct (decide (k = n)) as [->|Hne].
    { split; intros _; [right; by left|left; by left]. }
    split.
    + intros [[[=]|[_ ?]]|?]; [done|by left|right; by right].
    + intros [?|[?|?]]; [|done|by right].
      left. right. split; [congruence|done].
Qed.

Lemma foldl_none_is_Some (keys : list string) (d : row) k :
  is_Some (foldl (λ d key, <[Some key := VNone]> d) d keys !! Some k)
  ↔ is_Some (d !! Some k) ∨ k ∈ keys.
Proof.
  revert d. induction keys as [|n keys IH]; intros d; simpl.
  - rewrite elem_of_nil. tauto.
  - rewrite IH, lookup_insert_is_Some, elem_of_cons.
    destruct (decide (k = n)) as [->|Hne].
    { split; intros _; [right; by left|left; by left]. }
    split.
    + intros [[[=]|[_ ?]]|?]; [done|by left|right; by right].
    + intros [?|[?|?]]; [|done|by right].
      left. right. split; [congruence|done].
Qed.

(** Every column of the header is a key of every row. *)
Lemma make_row_is_Some names r k :
  k ∈ names → is_Some (make_row names r !! Some k).
Proof.
  intros Hk. unfold make_row, dict_zip.
  destruct (Nat.ltb_spec (length names) (length r)) as [Hlt|Hge].
  - rewrite lookup_insert_ne by done.
    apply foldl_zip_is_Some. right. by rewrite take_ge by lia.
  - destruct (Nat.ltb_spec (length r) (length names)) as [Hlt|Hge'].
    + apply foldl_none_is_Some.
      rewrite <-(take_drop (length r) names) in Hk.
      apply elem_of_app in Hk as [Hk|Hk]; [left|by right].
      apply foldl_zip_is_Some. by right.
    + apply foldl_zip_is_Some. right. by rewrite take_ge by lia.
Qed.

Lemma value_eq_str_true v key : value_eq_str v key = true ↔ v = VStr key.
Proof.
  destruct v as [s| |l]; simpl; [|done..].
  rewrite String.eqb_eq. split; congruence.
Qed.

(** On a table whose header has the column, the filter never raises:
    it reads the stream to its end and keeps the matching rows. *)
Lemma filter_reader_id key hdr body :
  "experiment_id" ∈ hdr →
  filter_reader (id_pred key) hdr body
  = (inr (rows_matching key (rows_of hdr body)), []).
Proof.
  intros Hhdr. unfold rows_matching, rows_of.
  induction body as [|r body IH]; simpl; [done|].
  rewrite filter_cons. destruct r as [|x r].
  - by rewrite decide_False by (by intros ?).
  - rewrite decide_True by done. rewrite IH. simpl.
    rewrite filter_cons. unfold id_pred, getitem.
    destruct (make_row_is_Some hdr (x :: r) _ Hhdr) as [v Hv].
    rewrite Hv. destruct (value_eq_str v key) eqn:Heq.
    + apply value_eq_str_true in Heq as ->. by rewrite decide_True.
    + rewrite decide_False; [done|]. intros [= ->].
      by rewrite (proj2 (value_eq_str_true _ _) eq_refl) in Heq.
Qed.

Section FindMeta.

Context {fs : Type}.
Implicit Types (w : World fs) (fh : TextIO).

Lemma set_stream_twice h a b w :
  set_stream h a (set_stream h b w) = set_stream h a w.
Proof. unfold set_stream; simpl. by rewrite insert_insert_eq. Qed.

Lemma set_stream_lookup h a w : w_streams (set_stream h a w) !! h = Some a.
Proof. unfold set_stream; simpl. apply lookup_insert_eq. Qed.

(** No header: the [in] test is applied to [None]. *)
Lemma find_meta_exhausted exp_id fh w :
  w_streams w !! fh_id fh = Some [] →
  find_meta exp_id fh w = (inl TypeError, w).
Proof.
  intros Hs. unfold find_meta, DictReader_fieldnames, csv_next.
  unfold mbind, M_bind, bind. by rewrite Hs.
Qed.

Lemma find_meta_closed exp_id fh w :
  w_streams w !! fh_id fh = None →
  find_meta exp_id fh w = (inl ValueError, w).
Proof.
  intros Hs. unfold find_meta, DictReader_fieldnames, csv_next.
  unfold mbind, M_bind, bind. by rewrite Hs.
Qed.

(** The header lacks the column: only the header has been read. *)
Lemma find_meta_missing_field exp_id fh w (hdr : list string)
    (body : list record) :
  w_streams w !! fh_id fh = Some (hdr :: body) →
  "experiment_id" ∉ hdr →
  find_meta exp_id fh w
  = (inl (Exception (quoted (fh_name fh) +:+ " missing "
                     +:+ quoted "experiment_id" +:+ " field")),
     set_stream (fh_id fh) body w).
Proof.
  intros Hs Hhdr. unfold find_meta, DictReader_fieldnames, csv_next.
  unfold mbind, M_bind, bind. rewrite Hs.
  by rewrite bool_decide_eq_false_2.
Qed.

(** The header has the column: the stream is read to its end. *)
Lemma find_meta_table exp_id fh w (hdr : list string)
    (body : list record) :
  w_streams w !! fh_id fh = Some (hdr :: body) →
  "experiment_id" ∈ hdr →
  find_meta exp_id fh w
  = (match rows_matching (Str.of_int exp_id) (rows_of hdr body) with
     | [] => inl (Exception ("experiment_id "
                             +:+ quoted (Str.of_int exp_id)
                             +:+ " not found"))
     | meta => inr meta
     end,
     set_stream (fh_id fh) [] w).
Proof.
  intros Hs Hhdr. unfold find_meta, DictReader_fieldnames, csv_next.
  unfold mbind at 1, M_bind at 1, bind at 1. rewrite Hs.
  rewrite bool_decide_eq_true_2 by done. simpl.
  unfold mbind, M_bind, bind, list_filter_reader.
  rewrite set_stream_lookup.
  rewrite filter_reader_id by done. rewrite set_stream_twice.
  by destruct (rows_matching _ _).
Qed.

End FindMeta.

(** C2.  On a stream whose header has the column [experiment_id], and
    for an id that at least one row matches, [find_meta] returns the
    rows of the table whose [experiment_id] field is, as a string,
    [str(exp_id)]: all of them, only them, in source order.  Fields
    are not read as numbers: for id 42 a row with field [042] or
    [42.0] is not selected. *)
Theorem find_meta_rows {fs : Type} (exp_id : Z) (fh : TextIO) (w : World fs)
    (hdr : list string) (body : list record) :
  w_streams w !! fh_id fh = Some (hdr :: body) →
  "experiment_id" ∈ hdr →
  rows_matching (Str.of_int exp_id) (rows_of hdr body) ≠ [] →
  let meta := rows_matching (Str.of_int exp_id) (rows_of hdr body) in
  (find_meta exp_id fh w).1 = inr meta
  ∧ meta `sublist_of` rows_of hdr body
  ∧ (∀ r, r ∈ meta ↔ r ∈ rows_of hdr body
                     ∧ r !! Some "experiment_id"
                       = Some (VStr (Str.of_int exp_id)))
  ∧ sum_map id (fmap (row_fields ["experiment_id"; "url"]))
      (find_meta 42 Sim.fh0
         (Sim.world Sim.empty
            [["experiment_id"; "url"]; ["42"; "a"]; ["042"; "b"];
             ["42.0"; "c"]; ["42"; "d"]])).1
    = inr [[Some (VStr "42"); Some (VStr "a")];
           [Some (VStr "42"); Some (VStr "d")]].
Proof.
  intros Hs Hhdr Hne meta. subst meta. split_and!.
  - rewrite (find_meta_table _ _ _ hdr body) by done. simpl.
    by destruct (rows_matching _ _).
  - apply sublist_filter.
  - intros r. unfold rows_matching. rewrite list_elem_of_filter. tauto.
  - by vm_compute.
Qed.

Lemma find_meta_rows_witness :
  (find_meta 2 Sim.fh0
     (Sim.world Sim.empty
        [["experiment_id"; "url"]; ["1"; "a"]; []; ["2"; "b"]; ["2"; "c"]])).1
  = inr (rows_matching (Str.of_int 2)
           (rows_of ["experiment_id"; "url"]
              [["1"; "a"]; []; ["2"; "b"]; ["2"; "c"]])).
Proof.
  apply (find_meta_rows 2 Sim.fh0 _ ["experiment_id"; "url"]
           [["1"; "a"]; []; ["2"; "b"]; ["2"; "c"]]).
  - reflexivity.
  - apply list_elem_of_here.
  - intros Hnil. apply (f_equal length) in Hnil.
    vm_compute in Hnil. discriminate.
Defined.

(** * The driver: one handle for every id *)

Section Driver.

Context {fs : Type} `{!OS fs}.
Variable R : list string → Z → Z → fs → exn + fs.

Implicit Types (w : World fs) (fh : TextIO).

(** A lookup that returns has read the stream to its end. *)
Lemma find_meta_inr exp_id fh w meta w1 :
  find_meta exp_id fh w = (inr meta, w1) →
  w_streams w1 !! fh_id fh = Some [].
Proof.
  destruct (w_streams w !! fh_id fh) as [[|hdr body]|] eqn:Hs.
  - by rewrite find_meta_exhausted.
  - destruct (decide ("experiment_id" ∈ hdr)) as [Hin|Hout].
    + rewrite (find_meta_table _ _ _ hdr body) by done.
      intros [= _ <-]. apply set_stream_lookup.
    + by rewrite (find_meta_missing_field _ _ _ hdr body).
  - by rewrite find_meta_closed.
Qed.

Lemma urls_of_world meta w : (urls_of meta w).2 = w.
Proof.
  induction meta as [|m meta IH]; simpl; [done|].
  destruct (getitem m "url") as [e|v]; [done|].
  unfold mbind, M_bind, bind.
  destruct (urls_of meta w) as [[e|vs] w'] eqn:Hu; simpl in *; congruence.
Qed.

Lemma get_files_loop_streams raw_dir files expected todo w :
  w_streams (get_files_loop raw_dir files expected todo w).2 = w_streams w.
Proof.
  revert expected todo w.
  induction files as [|[file| |l] files IH]; intros expected todo w;
    simpl; [done| |done..].
  case_bool_decide; [apply IH|].
  unfold mbind, M_bind, bind, os_path_isfile, logging_debug. simpl.
  destruct (isfile _ _); by rewrite IH.
Qed.

Lemma check_expected_streams expected w :
  w_streams (check_expected expected w).2 = w_streams w.
Proof. by rewrite check_expected_world. Qed.

Lemma get_files_streams files data_dir w :
  w_streams (get_files R files data_dir w).2 = w_streams w.
Proof.
  unfold get_files.
  unfold mbind at 1, M_bind at 1, bind at 1, os_path_isdir. simpl.
  unfold mbind at 1, M_bind at 1, bind at 1.
  assert (∀ w1, w_streams w1 = w_streams w →
    w_streams
      ((mbind (M := M fs) (λ '(expected, todo),
         (match todo with [] => ret () | _ :: _ => run_batch R todo 1 8 end);;
         check_expected expected)
         (get_files_loop (os_path.join data_dir "raw") files [] [])) w1).2
    = w_streams w) as Hrest.
  { intros w1 <-. unfold mbind at 1, M_bind at 1, bind at 1.
    pose proof (get_files_loop_streams (os_path.join data_dir "raw")
                  files [] [] w1) as Hl.
    destruct (get_files_loop _ _ _ _ w1) as [[e|[expected todo]] w2];
      simpl in *; [done|].
    unfold mbind, M_bind, bind, run_batch, ret.
    destruct todo as [|c todo]; [by rewrite check_expected_streams|].
    destruct (R _ _ _ _); simpl; [done|].
    by rewrite check_expected_streams. }
  destruct (isdir _ _); simpl; [by apply Hrest|].
  unfold os_makedirs. destruct (makedirs _ _); [|done].
  by apply Hrest.
Qed.

Lemma run_qc_streams files data_dir w :
  w_streams (run_qc R files data_dir w).2 = w_streams w.
Proof.
  rewrite run_qc_eq. simpl. destruct (ensure_dir _ _); [|done].
  unfold finish. destruct (rq_todo _ _ _) as [|c todo].
  - by rewrite check_expected_streams.
  - destruct (R _ _ _ _); [done|]. by rewrite check_expected_streams.
Qed.

(** When the pipeline of one id has completed, the handle is at the
    end of its stream. *)
Lemma process_exhausts exp_id fh data_dir w u w' :
  process R exp_id fh data_dir w = (inr u, w') →
  w_streams w' !! fh_id fh = Some [].
Proof.
  unfold process. unfold mbind at 1, M_bind at 1, bind at 1.
  destruct (find_meta exp_id fh w) as [[e|meta] w1] eqn:Hfind; [done|].
  apply find_meta_inr in Hfind.
  unfold mbind at 1, M_bind at 1, bind at 1.
  pose proof (urls_of_world meta w1) as Hu.
  destruct (urls_of meta w1) as [[e|urls] w2]; simpl in Hu; subst w2;
    [done|].
  unfold mbind at 1, M_bind at 1, bind at 1.
  pose proof (get_files_streams urls data_dir w1) as Hg.
  destruct (get_files R urls data_dir w1) as [[e|local] w3]; [done|].
  unfold mbind at 1, M_bind at 1, bind at 1.
  pose proof (run_qc_streams local data_dir w3) as Hq.
  destruct (run_qc R local data_dir w3) as [[e|out] w4]; [done|].
  unfold ret. simpl in *. intros [= _ <-]. by rewrite Hq, Hg.
Qed.

(** The lookup of a second id never returns. *)
Lemma main_loop_second_id i id1 id2 ids fh data_dir w :
  ∃ e, (main_loop R i (id1 :: id2 :: ids) fh data_dir w).1 = inl e.
Proof.
  simpl. unfold mbind at 1, M_bind at 1, bind at 1, print at 1.
  unfold mbind at 1, M_bind at 1, bind at 1.
  destruct (process R id1 fh data_dir _) as [[e|[]] w1] eqn:Hp;
    [by eexists|].
  apply process_exhausts in Hp.
  unfold mbind at 1, M_bind at 1, bind at 1, print at 1.
  unfold mbind at 1, M_bind at 1, bind at 1.
  unfold process. unfold mbind at 1, M_bind at 1, bind at 1.
  rewrite find_meta_exhausted by done. by eexists.
Qed.

(** One turn of the loop. *)
Lemma main_loop_cons i id1 rest fh data_dir w :
  main_loop R i (id1 :: rest) fh data_dir w
  = match process R id1 fh data_dir (add_stdout (ordinal_line i id1) w) with
    | (inl e, w2) => (inl e, w2)
    | (inr _, w2) => main_loop R (i + 1) rest fh data_dir w2
    end.
Proof. reflexivity. Qed.

(** An exception of a pipeline ends the loop, in the world the pipeline
    left. *)
Lemma main_loop_raises i id1 rest fh data_dir w e w2 :
  process R id1 fh data_dir (add_stdout (ordinal_line i id1) w) = (inl e, w2) →
  main_loop R i (id1 :: rest) fh data_dir w = (inl e, w2).
Proof. intros Hp. by rewrite main_loop_cons, Hp. Qed.

Lemma main_loop_single i id1 fh data_dir w w2 :
  process R id1 fh data_dir (add_stdout (ordinal_line i id1) w) = (inr (), w2) →
  main_loop R i [id1] fh data_dir w = (inr (), w2).
Proof. intros Hp. by rewrite main_loop_cons, Hp. Qed.

(** Once the pipeline of an id has completed, the line of the next id
    is printed, its lookup finds the handle at the end of the stream
    and raises, and the loop ends there. *)
Lemma main_loop_second i id1 id2 ids fh data_dir w w2 :
  process R id1 fh data_dir (add_stdout (ordinal_line i id1) w) = (inr (), w2) →
  main_loop R i (id1 :: id2 :: ids) fh data_dir w
  = (inl TypeError, add_stdout (ordinal_line (i + 1) id2) w2).
Proof.
  intros Hp. rewrite main_loop_cons, Hp, main_loop_cons.
  apply process_exhausts in Hp.
  unfold process. unfold mbind at 1, M_bind at 1, bind at 1.
  by rewrite find_meta_exhausted.
Qed.

(** [main], step by step. *)
Lemma main_eq args w :
  main R args w
  = match logging_basicConfig (logfile args) (debug args) w with
    | (inl e, w0) => (inl e, w0)
    | (inr _, w0) =>
        match main_loop R 1 (experiment_id args) (metadata args)
                (data_dir args) w0 with
        | (inl e, w1) => (inl e, w1)
        | (inr _, w1) => (inr (), add_stdout "Done." w1)
        end
    end.
Proof.
  unfold main. unfold mbind at 1, M_bind at 1, bind at 1.
  destruct (logging_basicConfig _ _ w) as [[e|[]] w0]; [done|].
  unfold mbind at 1, M_bind at 1, bind at 1.
  by destruct (main_loop R 1 _ _ _ w0) as [[e|[]] w1].
Qed.

(** A run that completes was given one id at most. *)
Lemma main_inr_ids args w :
  (main R args w).1 = inr () → (length (experiment_id args) ≤ 1)%nat.
Proof.
  rewrite main_eq.
  destruct (logging_basicConfig _ _ w) as [[e|[]] w0]; [done|].
  destruct (experiment_id args) as [|id1 [|id2 ids]]; [simpl; lia..|].
  destruct (main_loop_second_id 1 id1 id2 ids (metadata args)
              (data_dir args) w0) as [e He].
  destruct (main_loop R 1 _ _ _ w0) as [[e'|[]] w1]; simpl in *; done.
Qed.

End Driver.

(** C7.  On a stream with no header record at all, [find_meta] raises a
    [TypeError]: none of the two errors of section 4.1, which name the
    missing field and the file, or the id. *)
Theorem find_meta_empty_stream :
  (find_meta 42 Sim.fh0 (Sim.world Sim.empty [])).1 = inl TypeError.
Proof. by rewrite find_meta_exhausted. Qed.

(** C9, as stated, fails: a call that stops at the header check has
    read the header alone, and the next call on the handle takes the
    following record for a header and can return rows. *)
Lemma find_meta_second_call_returns :
  let w0 := Sim.world Sim.empty
              [["a"; "b"]; ["experiment_id"; "url"]; ["5"; "x"]] in
  let w1 := (find_meta 5 Sim.fh0 w0).2 in
  (find_meta 5 Sim.fh0 w0).1
  = inl (Exception (quoted "meta.csv" +:+ " missing "
                    +:+ quoted "experiment_id" +:+ " field"))
  ∧ w_streams w1 !! 0%nat = Some [["experiment_id"; "url"]; ["5"; "x"]]
  ∧ sum_map id (fmap (row_fields ["experiment_id"; "url"]))
      (find_meta 5 Sim.fh0 w1).1
    = inr [[Some (VStr "5"); Some (VStr "x")]].
Proof. by vm_compute. Qed.

(** C9, amended.  A call of [find_meta] on a stream whose header has
    the column [experiment_id] reads the stream to its end, and every
    later call on that handle raises [TypeError] and leaves the world
    as it is, whatever id is asked for; a call that fails the header
    check has read the header record only.  The driver passes one
    handle for every id and stops at the first exception: the loop
    ends with the exception of a pipeline, in the world that pipeline
    left, and no later id is announced or looked up.  Once the
    pipeline of an id has completed, the handle is at the end of its
    stream: the line of the next id is printed, its lookup raises
    [TypeError] having read nothing, and the loop ends there, whatever
    ids follow.  So the lookup of the first id alone can see the rows
    of the table, and a run that completes was given one id at most. *)
Theorem find_meta_exhausts {fs : Type} `{!OS fs}
    (R : list string → Z → Z → fs → exn + fs) :
  (∀ exp_id fh (w : World fs) (hdr : list string) (body : list record),
     w_streams w !! fh_id fh = Some (hdr :: body) →
     "experiment_id" ∈ hdr →
     let w1 := (find_meta exp_id fh w).2 in
     w_streams w1 !! fh_id fh = Some []
     ∧ ∀ id2, find_meta id2 fh w1 = (inl TypeError, w1))
  ∧ (∀ exp_id fh (w : World fs) (hdr : list string) (body : list record),
       w_streams w !! fh_id fh = Some (hdr :: body) →
       "experiment_id" ∉ hdr →
       let w1 := (find_meta exp_id fh w).2 in
       (find_meta exp_id fh w).1
       = inl (Exception (quoted (fh_name fh) +:+ " missing "
                         +:+ quoted "experiment_id" +:+ " field"))
       ∧ w1 = set_stream (fh_id fh) body w
       ∧ w_streams w1 !! fh_id fh = Some body)
  ∧ (∀ exp_id fh data_dir (w : World fs),
       (process R exp_id fh data_dir w).1 = inr () →
       let w1 := (process R exp_id fh data_dir w).2 in
       w_streams w1 !! fh_id fh = Some []
       ∧ ∀ id2, find_meta id2 fh w1 = (inl TypeError, w1))
  ∧ (∀ i id1 rest fh data_dir (w : World fs) e w2,
       process R id1 fh data_dir (add_stdout (ordinal_line i id1) w)
       = (inl e, w2) →
       main_loop R i (id1 :: rest) fh data_dir w = (inl e, w2))
  ∧ (∀ i id1 id2 ids fh data_dir (w : World fs) w2,
       process R id1 fh data_dir (add_stdout (ordinal_line i id1) w)
       = (inr (), w2) →
       let w3 := add_stdout (ordinal_line (i + 1) id2) w2 in
       w_streams w3 !! fh_id fh = Some []
       ∧ find_meta id2 fh w3 = (inl TypeError, w3)
       ∧ main_loop R i (id1 :: id2 :: ids) fh data_dir w
         = (inl TypeError, w3))
  ∧ (∀ i id1 id2 ids fh data_dir (w : World fs),
       ∃ e, (main_loop R i (id1 :: id2 :: ids) fh data_dir w).1 = inl e)
  ∧ (∀ args (w : World fs),
       (main R args w).1 = inr () →
       (length (experiment_id args) ≤ 1)%nat).
Proof.
  split_and!.
  - intros exp_id fh w hdr body Hs Hhdr w1. subst w1.
    rewrite (find_meta_table _ _ _ hdr body) by done. simpl.
    split; [apply set_stream_lookup|].
    intros id2. apply find_meta_exhausted, set_stream_lookup.
  - intros exp_id fh w hdr body Hs Hhdr w1. subst w1.
    rewrite (find_meta_missing_field _ _ _ hdr body) by done. simpl.
    split_and!; [done..|apply set_stream_lookup].
  - intros exp_id fh data_dir w Hok w1.
    assert (w_streams w1 !! fh_id fh = Some []) as Hend.
    { apply (process_exhausts R exp_id fh data_dir w ()).
      by apply run_pair. }
    split; [done|]. intros id2. by apply find_meta_exhausted.
  - intros i id1 rest fh data_dir w e w2. apply main_loop_raises.
  - intros i id1 id2 ids fh data_dir w w2 Hp w3.
    assert (w_streams w3 !! fh_id fh = Some []) as Hend
      by (apply process_exhausts in Hp; exact Hp).
    split_and!; [done|by apply find_meta_exhausted|].
    by apply main_loop_second.
  - apply main_loop_second_id.
  - apply main_inr_ids.
Qed.

Lemma find_meta_exhausts_witness :
  let table := [["experiment_id"; "url"]; ["5"; "ftp://h/a.fq"];
                ["7"; "ftp://h/b.fq"]] in
  let w := Sim.world Sim.empty table in
  let w2 := (process Sim.run_ok 5 Sim.fh0 "/data"
               (add_stdout (ordinal_line 1 5) w)).2 in
  (find_meta 7 Sim.fh0 (find_meta 5 Sim.fh0 w).2).1 = inl TypeError
  ∧ main_loop Sim.run_ok 1 [5; 7; 9] Sim.fh0 "/data" w
    = (inl TypeError, add_stdout (ordinal_line (1 + 1) 7) w2).
Proof.
  intros table w w2.
  destruct (find_meta_exhausts Sim.run_ok)
    as (Hread & _ & _ & _ & Hsecond & _).
  split.
  - destruct (Hread 5 Sim.fh0 w ["experiment_id"; "url"]
                [["5"; "ftp://h/a.fq"]; ["7"; "ftp://h/b.fq"]])
      as [_ Hnext].
    + reflexivity.
    + apply list_elem_of_here.
    + by rewrite Hnext.
  - apply Hsecond. subst w2. apply run_pair. by vm_compute.
Defined.

(** C1.  With two requested ids, both in the table, and a runner under
    which every command succeeds, the run prints both ordinals, then
    the lookup of the second id raises [TypeError] and [Done.] is never
    printed; asked for alone, the second id is found and the run
    completes. *)
Theorem main_second_lookup_fails :
  let table := [["experiment_id"; "url"]; ["1"; "ftp://host/a.fastq.gz"];
                ["2"; "ftp://host/b.fq"]] in
  let args ids := {| experiment_id := ids; data_dir := "/data";
                     metadata := Sim.fh0; debug := false;
                     logfile := ".log" |} in
  let both := main Sim.run_ok (args [1; 2]) (Sim.world Sim.empty table) in
  let alone := main Sim.run_ok (args [2]) (Sim.world Sim.empty table) in
  both.1 = inl TypeError
  ∧ w_stdout both.2 = ["  1: 1"; "  2: 2"]
  ∧ alone.1 = inr ()
  ∧ w_stdout alone.2 = ["  1: 2"; "Done."].
Proof. by vm_compute. Qed.

(** * Further properties of the script *)

(** ** Paths *)

Lemma sapp_inv_r (s1 s2 t : string) : s1 +:+ t = s2 +:+ t → s1 = s2.
Proof.
  revert s2. induction s1 as [|a s1 IH]; intros s2 Heq.
  - simpl in Heq. apply (f_equal String.length) in Heq.
    rewrite slength_app in Heq.
    destruct s2; [done|simpl in Heq; lia].
  - destruct s2 as [|b s2].
    + simpl in Heq. apply (f_equal String.length) in Heq. simpl in Heq.
      rewrite slength_app in Heq. lia.
    + simpl in Heq. injection Heq as -> Heq. by rewrite (IH s2).
Qed.

Lemma basename_cons a s :
  Str.mem "/" s = true → os_path.basename (String a s) = os_path.basename s.
Proof.
  intros Hm. unfold os_path.basename. simpl.
  destruct (rfind_range "/" s) as [[_ ?]|[Hr _]]; [congruence|].
  destruct (Z.leb_spec 0 (Str.rfind "/" s)); [|lia].
  replace (Z.to_nat (Str.rfind "/" s + 1 + 1))
    with (S (Z.to_nat (Str.rfind "/" s + 1))) by lia.
  done.
Qed.

(** The basename of [x/b] is [b]. *)
Lemma basename_dir x b :
  Str.mem "/" b = false → os_path.basename (x +:+ "/" +:+ b) = b.
Proof.
  intros Hb. induction x as [|a x IH]; simpl.
  - unfold os_path.basename. simpl.
    by destruct (rfind_range "/" b) as [[-> _]|[_ ?]]; [|congruence].
  - rewrite basename_cons; [done|].
    rewrite smem_app. simpl. by rewrite orb_true_r.
Qed.

(** A path [x/b] determines both the directory and the name. *)
Lemma dir_name_inj x y b c :
  Str.mem "/" b = false → Str.mem "/" c = false →
  x +:+ "/" +:+ b = y +:+ "/" +:+ c → x = y ∧ b = c.
Proof.
  intros Hb Hc Heq.
  assert (b = c) as ->.
  { rewrite <-(basename_dir x b Hb), <-(basename_dir y c Hc). by rewrite Heq. }
  split; [|done]. by apply (sapp_inv_r _ _ ("/" +:+ c)).
Qed.

Lemma join_inj d w1 w2 :
  Str.mem "/" w1 = false → Str.mem "/" w2 = false →
  os_path.join d w1 = os_path.join d w2 → w1 = w2.
Proof.
  intros H1 H2. unfold os_path.join.
  rewrite !startswith_sep_mem by done.
  destruct (_ || _); intros Heq.
  - by apply (inj (String.app d)) in Heq.
  - apply (inj (String.app d)) in Heq.
    by apply (inj (String.app os_path.sep)) in Heq.
Qed.

Lemma raw_qc_dirs_differ data_dir : raw_dir_of data_dir ≠ qc_dir_of data_dir.
Proof. by intros ?%join_inj. Qed.

(** X1.  The path of a QC output is never the destination of a
    download: whatever [run_qc] returns, and whatever its pipelines
    are redirected to, lies in [<data_dir>/qc] and differs from every
    [<data_dir>/raw/basename(url)]. *)
Theorem qc_output_not_raw {fs : Type} `{!OS fs}
    (R : list string → Z → Z → fs → exn + fs) files data_dir w out w' :
  run_qc R files data_dir w = (inr out, w') →
  ∀ p, p ∈ out →
    (∀ url, p ≠ raw_dest data_dir url)
    ∧ Str.startswith p (qc_dir_of data_dir +:+ "/") = true
    ∧ Str.endswith p ".fa" = true.
Proof.
  rewrite run_qc_eq. simpl. destruct (ensure_dir _ _) as [s1|]; [|done].
  intros (-> & _)%finish_inr p (f & -> & _)%list_elem_of_fmap.
  rewrite qc_path_eq. split_and!.
  - intros url. rewrite raw_dest_eq. intros Heq.
    apply dir_name_inj in Heq as [Heq _].
    + by destruct (raw_qc_dirs_differ data_dir).
    + rewrite smem_app, qc_stem_no_slash; [done|apply basename_no_slash].
    + apply basename_no_slash.
  - rewrite <-sapp_assoc. apply startswith_app.
  - rewrite <-!sapp_assoc. by rewrite endswith_app.
Qed.

Lemma qc_output_not_raw_witness :
  "/data/qc/reads.fa" ≠ raw_dest "/data" "ftp://host/reads.fa"
  ∧ Str.startswith "/data/qc/reads.fa" (qc_dir_of "/data" +:+ "/") = true
  ∧ Str.endswith "/data/qc/reads.fa" ".fa" = true.
Proof.
  destruct (qc_output_not_raw Sim.run_ok ["/data/raw/reads.fastq.gz"] "/data"
              (Sim.world Sim.empty []) ["/data/qc/reads.fa"]
              (run_qc Sim.run_ok ["/data/raw/reads.fastq.gz"] "/data"
                 (Sim.world Sim.empty [])).2) with (p := "/data/qc/reads.fa")
    as (Hne & Hpre & Hsuf).
  - by apply run_pair; vm_compute.
  - apply list_elem_of_here.
  - split_and!; [apply Hne|exact Hpre|exact Hsuf].
Defined.

(** X2.  The stem is a prefix of the basename, empty only for the
    empty basename, and two files are given the same QC output exactly
    when the stems of their basenames are the same. *)
Theorem qc_output_collision data_dir f1 f2 :
  (qc_path (qc_dir_of data_dir) f1 = qc_path (qc_dir_of data_dir) f2
   ↔ qc_stem (os_path.basename f1) = qc_stem (os_path.basename f2))
  ∧ Str.startswith (os_path.basename f1) (qc_stem (os_path.basename f1)) = true
  ∧ (qc_stem (os_path.basename f1) = EmptyString
     ↔ os_path.basename f1 = EmptyString).
Proof.
  split_and!.
  - rewrite !qc_path_eq. split; [|by intros ->].
    intros Heq. apply (inj (String.app _)) in Heq.
    apply (inj (String.app _)) in Heq. by apply sapp_inv_r in Heq.
  - destruct (qc_stem_StemOf (os_path.basename f1)) as [stem suf nl _ _ _|b _].
    + apply startswith_app.
    + rewrite <-(sapp_nil_r b) at 1. apply startswith_app.
  - destruct (qc_stem_StemOf (os_path.basename f1))
      as [stem suf nl [Hne _] _ _|b _]; [|done].
    split; [done|]. by destruct stem.
Qed.

(** ** The two stages *)

Section Stages.

Context {fs : Type} `{!OS fs}.
Variable R : list string → Z → Z → fs → exn + fs.

Implicit Types (w : World fs) (s : fs).

Lemma qc_dir_not_empty data_dir : qc_dir_of data_dir ≠ EmptyString.
Proof.
  unfold qc_dir_of.
  destruct (join_word_last data_dir "q" "c" eq_refl) as [x Hx].
  change ("q" +:+ "c") with "qc" in Hx. rewrite Hx.
  apply app_not_empty.
Qed.

Lemma rq_todo_nil qc_dir s files :
  (∀ f, f ∈ files → isfile (qc_path qc_dir f) s = true) →
  rq_todo qc_dir s files = [].
Proof.
  intros Hall. induction files as [|f files IH]; [done|].
  rewrite rq_todo_cons, (Hall f) by apply list_elem_of_here.
  apply IH. intros g Hg. apply Hall. by apply list_elem_of_further.
Qed.

Lemma gf_todo_first raw_dir s seen urls :
  gf_todo raw_dir s seen urls
  = (λ u, iget_cmd u (os_path.join raw_dir (os_path.basename u)))
      <$> filter (λ u, isfile (os_path.join raw_dir (os_path.basename u)) s
                       = false)
            (first_urls raw_dir seen urls).
Proof.
  revert seen. induction urls as [|u urls IH]; intros seen; simpl; [done|].
  case_bool_decide; [apply IH|].
  rewrite filter_cons, IH.
  destruct (isfile _ s); by case_decide.
Qed.

Lemma first_urls_dests raw_dir seen urls :
  dests raw_dir (first_urls raw_dir seen urls)
  = dedup_from seen (dests raw_dir urls).
Proof.
  revert seen. induction urls as [|u urls IH]; intros seen; simpl; [done|].
  case_bool_decide; [apply IH|]. simpl. by rewrite <-IH.
Qed.

Lemma first_urls_sublist raw_dir seen urls :
  first_urls raw_dir seen urls `sublist_of` urls.
Proof.
  revert seen. induction urls as [|u urls IH]; intros seen; simpl; [done|].
  case_bool_decide; [by apply sublist_cons|by apply sublist_skip].
Qed.

End Stages.

(** X3.  A successful [run_qc] is not repeated: a second run over the
    same files and data directory, started where the first one ended,
    submits no batch, changes no file and returns the same list. *)
Theorem run_qc_idempotent {fs : Type} `{!OS fs}
    (R : list string → Z → Z → fs → exn + fs) files data_dir w out w1 :
  run_qc R files data_dir w = (inr out, w1) →
  ∃ w2,
    run_qc R files data_dir w1 = (inr out, w2)
    ∧ w_batches w2 = w_batches w1
    ∧ w_fs w2 = w_fs w1.
Proof.
  rewrite run_qc_eq. simpl.
  destruct (ensure_dir _ (w_fs w)) as [s1|] eqn:Hdir; [|done].
  intros (-> & Hmiss & _ & Hdone)%finish_inr.
  rewrite missing_of_nil in Hmiss.
  assert (isdir (qc_dir_of data_dir) (w_fs w1) = true) as Hisdir.
  { destruct files as [|f files].
    - simpl in Hdone. rewrite Hdone. simpl.
      by apply (ensure_dir_isdir _ _ _ Hdir).
    - apply (isfile_parent _ (qc_stem (os_path.basename f) +:+ ".fa"));
        [apply qc_dir_not_empty| |].
      + rewrite smem_app, qc_stem_no_slash; [done|apply basename_no_slash].
      + rewrite <-qc_path_eq. apply Hmiss. simpl. apply list_elem_of_here. }
  rewrite run_qc_eq. simpl. unfold ensure_dir. rewrite Hisdir.
  rewrite rq_todo_nil.
  - unfold finish. rewrite check_expected_ok; [|simpl; by apply missing_of_nil].
    eexists. split; [done|]. by simpl.
  - intros f Hf. apply Hmiss. by apply list_elem_of_fmap_2.
Qed.

Lemma run_qc_idempotent_witness :
  ∃ w2,
    run_qc Sim.run_ok ["/data/raw/a.fq"; "/data/raw/b.fastq.gz"] "/data"
      (run_qc Sim.run_ok ["/data/raw/a.fq"; "/data/raw/b.fastq.gz"] "/data"
         (Sim.world Sim.empty [])).2
    = (inr ["/data/qc/a.fa"; "/data/qc/b.fa"], w2)
    ∧ length (w_batches w2) = 1%nat.
Proof.
  destruct (run_qc_idempotent Sim.run_ok
              ["/data/raw/a.fq"; "/data/raw/b.fastq.gz"] "/data"
              (Sim.world Sim.empty []) ["/data/qc/a.fa"; "/data/qc/b.fa"]
              (run_qc Sim.run_ok ["/data/raw/a.fq"; "/data/raw/b.fastq.gz"]
                 "/data" (Sim.world Sim.empty [])).2)
    as (w2 & Hrun & Hb & _).
  - by apply run_pair; vm_compute.
  - exists w2. split; [exact Hrun|]. rewrite Hb. reflexivity.
Defined.

(** X4.  Whenever the raw directory is in place, the batch [get_files]
    submits is, in order, one [iget -f <url> <destination>] for the
    first URL of every destination that is not yet a regular file; a
    later URL with the same basename is never fetched, and nothing is
    submitted when no file is lacking. *)
Theorem get_files_commands {fs : Type} `{!OS fs}
    (R : list string → Z → Z → fs → exn + fs) urls data_dir w s1 :
  ensure_dir (raw_dir_of data_dir) (w_fs w) = Some s1 →
  let firsts := first_urls (raw_dir_of data_dir) [] urls in
  let todo :=
    (λ u, "iget -f " +:+ u +:+ " " +:+ raw_dest data_dir u)
      <$> filter (λ u, isfile (raw_dest data_dir u) (w_fs w) = false) firsts in
  w_batches (get_files R (VStr <$> urls) data_dir w).2
  = w_batches w ++ match todo with [] => [] | _ => [todo] end
  ∧ firsts `sublist_of` urls
  ∧ raw_dest data_dir <$> firsts = dedup_first (raw_dest data_dir <$> urls)
  ∧ NoDup (os_path.basename <$> firsts).
Proof.
  intros Hdir firsts todo. split_and!.
  - rewrite get_files_eq. simpl. rewrite Hdir.
    assert (gf_todo (raw_dir_of data_dir) s1 [] urls = todo) as ->.
    { rewrite gf_todo_first. unfold todo, firsts.
      apply (f_equal (fmap _)), list_filter_iff. intros u.
      by rewrite (ensure_dir_isfile _ _ _ _ Hdir). }
    unfold finish. destruct todo as [|c todo']; simpl.
    + by rewrite check_expected_world, app_nil_r.
    + destruct (R _ _ _ _); [done|]. by rewrite check_expected_world.
  - apply first_urls_sublist.
  - apply first_urls_dests.
  - assert (NoDup (raw_dest data_dir <$> firsts)) as Hnd.
    { change (NoDup (dests (raw_dir_of data_dir) firsts)).
      unfold firsts. rewrite first_urls_dests. apply dedup_from_NoDup. }
    eapply (NoDup_fmap_1 (λ b, raw_dir_of data_dir +:+ "/" +:+ b)).
    rewrite <-list_fmap_compose.
    erewrite list_fmap_ext; [exact Hnd|].
    intros _ u _. simpl. by rewrite raw_dest_eq.
Qed.

Lemma get_files_commands_witness :
  w_batches
    (get_files Sim.run_noop
       (VStr <$> ["ftp://h/x/a.fq"; "ftp://g/y/a.fq"; "ftp://h/b.fq"]) "/data"
       (Sim.world Sim.empty [])).2
  = [["iget -f ftp://h/x/a.fq /data/raw/a.fq";
      "iget -f ftp://h/b.fq /data/raw/b.fq"]].
Proof.
  destruct (get_files_commands Sim.run_noop
              ["ftp://h/x/a.fq"; "ftp://g/y/a.fq"; "ftp://h/b.fq"] "/data"
              (Sim.world Sim.empty [])
              {| Sim.files := []; Sim.dirs := ["/data/raw"] |})
    as [Hb _]; [reflexivity|].
  rewrite Hb. reflexivity.
Defined.

(** X5.  In both stages an exception ends the call where it is raised.
    When the directory cannot be made, [OSError] is raised ahead of the
    loop, whatever the file list: no batch is handed over, nothing is
    printed, logged or read, and the filesystem is the one the failed
    [os.makedirs] left, in which leading directories may have been
    made.  When the runner raises on the batch, its exception is the
    outcome, with no check of the expected paths and the batch handed
    over once. *)
Theorem stage_errors {fs : Type} `{!OS fs}
    (R : list string → Z → Z → fs → exn + fs) data_dir w :
  (∀ files,
     isdir (raw_dir_of data_dir) (w_fs w) = false →
     makedirs (raw_dir_of data_dir) (w_fs w) = None →
     get_files R files data_dir w
     = (inl (OSError (raw_dir_of data_dir)),
        set_fs (makedirs_raised (raw_dir_of data_dir) (w_fs w)) w))
  ∧ (∀ files,
     isdir (qc_dir_of data_dir) (w_fs w) = false →
     makedirs (qc_dir_of data_dir) (w_fs w) = None →
     run_qc R files data_dir w
     = (inl (OSError (qc_dir_of data_dir)),
        set_fs (makedirs_raised (qc_dir_of data_dir) (w_fs w)) w))
  ∧ (∀ urls s1 e,
     ensure_dir (raw_dir_of data_dir) (w_fs w) = Some s1 →
     gf_todo (raw_dir_of data_dir) s1 [] urls ≠ [] →
     R (gf_todo (raw_dir_of data_dir) s1 [] urls) 1 8 s1 = inl e →
     (get_files R (VStr <$> urls) data_dir w).1 = inl e
     ∧ w_batches (get_files R (VStr <$> urls) data_dir w).2
       = w_batches w ++ [gf_todo (raw_dir_of data_dir) s1 [] urls])
  ∧ (∀ files s1 e,
     ensure_dir (qc_dir_of data_dir) (w_fs w) = Some s1 →
     rq_todo (qc_dir_of data_dir) s1 files ≠ [] →
     R (rq_todo (qc_dir_of data_dir) s1 files) 1 8 s1 = inl e →
     (run_qc R files data_dir w).1 = inl e
     ∧ w_batches (run_qc R files data_dir w).2
       = w_batches w ++ [rq_todo (qc_dir_of data_dir) s1 files]).
Proof.
  split_and!.
  - intros files Hd Hm. unfold get_files, raw_dir_of in *.
    unfold mbind, M_bind, bind, os_path_isdir. simpl.
    rewrite Hd. simpl. unfold os_makedirs. by rewrite Hm.
  - intros files Hd Hm. unfold run_qc, qc_dir_of in *.
    unfold mbind, M_bind, bind, os_path_isdir. simpl.
    rewrite Hd. simpl. unfold os_makedirs. by rewrite Hm.
  - intros urls s1 e Hdir Hne Hrun. rewrite get_files_eq. simpl.
    rewrite Hdir. unfold finish.
    destruct (gf_todo _ _ _ _) as [|c todo]; [done|]. simpl.
    by rewrite Hrun.
  - intros files s1 e Hdir Hne Hrun. rewrite run_qc_eq. simpl.
    rewrite Hdir. unfold finish.
    destruct (rq_todo _ _ _) as [|c todo]; [done|]. simpl.
    by rewrite Hrun.
Qed.

Lemma stage_errors_witness :
  get_files Sim.run_ok [VStr "ftp://h/a.fq"] "/data"
    (Sim.world {| Sim.files := ["/data/raw"]; Sim.dirs := [] |} [])
  = (inl (OSError (raw_dir_of "/data")),
     Sim.world {| Sim.files := ["/data/raw"]; Sim.dirs := [] |} [])
  ∧ (get_files run_fail (VStr <$> ["ftp://h/a.fq"]) "/data"
       (Sim.world Sim.empty [])).1
    = inl (RunnerError "halted").
Proof.
  split.
  - rewrite (proj1 (stage_errors Sim.run_ok "/data"
                      (Sim.world {| Sim.files := ["/data/raw"];
                                    Sim.dirs := [] |} [])));
      reflexivity.
  - apply (proj1 (proj2 (proj2 (stage_errors run_fail "/data"
                                  (Sim.world Sim.empty []))))
             ["ftp://h/a.fq"]
             {| Sim.files := []; Sim.dirs := ["/data/raw"] |});
      [reflexivity|by vm_compute|reflexivity].
Defined.

(** ** What a call leaves alone

    A relation between the world before and the world after that every
    primitive step of the pipeline respects is respected by the
    pipeline of one id. *)

Section Frame.

Context {fs : Type} `{!OS fs}.
Variable R : list string → Z → Z → fs → exn + fs.
Variable P : World fs → World fs → Prop.

Hypothesis P_refl : ∀ w, P w w.
Hypothesis P_trans : ∀ w1 w2 w3, P w1 w2 → P w2 w3 → P w1 w3.
Hypothesis P_fs : ∀ s w, P w (set_fs s w).
Hypothesis P_log : ∀ msgs w, P w (log_msgs msgs w).
Hypothesis P_batch : ∀ todo w, P w (add_batch todo w).
Hypothesis P_stream : ∀ h recs w, P w (set_stream h recs w).

Implicit Types (w : World fs) (fh : TextIO).

Lemma find_meta_frame exp_id fh w : P w (find_meta exp_id fh w).2.
Proof.
  destruct (w_streams w !! fh_id fh) as [[|hdr body]|] eqn:Hs.
  - rewrite find_meta_exhausted by done. apply P_refl.
  - destruct (decide ("experiment_id" ∈ hdr)) as [Hin|Hout].
    + rewrite (find_meta_table _ _ _ hdr body) by done. apply P_stream.
    + rewrite (find_meta_missing_field _ _ _ hdr body) by done.
      apply P_stream.
  - rewrite find_meta_closed by done. apply P_refl.
Qed.

Lemma get_files_loop_frame raw_dir files expected todo w :
  P w (get_files_loop raw_dir files expected todo w).2.
Proof.
  revert expected todo w.
  induction files as [|[file| |l] files IH]; intros expected todo w;
    simpl; [apply P_refl| |apply P_refl..].
  case_bool_decide; [apply IH|].
  unfold mbind, M_bind, bind, os_path_isfile, logging_debug. simpl.
  destruct (isfile _ _); (eapply P_trans; [apply P_log|apply IH]).
Qed.

Lemma finish_frame expected todo w : P w (finish R expected todo w).2.
Proof.
  unfold finish. destruct todo as [|c todo].
  - rewrite check_expected_world. apply P_refl.
  - destruct (R _ _ _ _); simpl; [apply P_batch|].
    rewrite check_expected_world.
    eapply P_trans; [apply P_batch|apply P_fs].
Qed.

Lemma get_files_frame files data_dir w : P w (get_files R files data_dir w).2.
Proof.
  unfold get_files.
  unfold mbind at 1, M_bind at 1, bind at 1, os_path_isdir. simpl.
  unfold mbind at 1, M_bind at 1, bind at 1.
  assert (∀ w1, P w w1 →
    P w ((mbind (M := M fs) (λ '(expected, todo),
           (match todo with [] => ret () | _ :: _ => run_batch R todo 1 8 end);;
           check_expected expected)
           (get_files_loop (os_path.join data_dir "raw") files [] [])) w1).2)
    as Hrest.
  { intros w1 Hw1. unfold mbind at 1, M_bind at 1, bind at 1.
    pose proof (get_files_loop_frame (os_path.join data_dir "raw")
                  files [] [] w1) as Hl.
    destruct (get_files_loop _ _ _ _ w1) as [[e|[expected todo]] w2];
      simpl in *;
      (assert (P w w2) as Hw2 by (eapply P_trans; [exact Hw1|exact Hl]));
      [exact Hw2|].
    unfold mbind, M_bind, bind, run_batch, ret.
    destruct todo as [|c todo].
    - rewrite check_expected_world. exact Hw2.
    - destruct (R _ _ _ _); simpl.
      + eapply P_trans; [exact Hw2|apply P_batch].
      + rewrite check_expected_world.
        eapply P_trans; [|apply P_fs].
        eapply P_trans; [exact Hw2|apply P_batch]. }
  destruct (isdir _ _); simpl; [apply Hrest, P_refl|].
  unfold os_makedirs. destruct (makedirs _ _); [|apply P_fs].
  apply Hrest, P_fs.
Qed.

Lemma run_qc_frame files data_dir w : P w (run_qc R files data_dir w).2.
Proof.
  rewrite run_qc_eq. simpl. destruct (ensure_dir _ _); [|apply P_fs].
  eapply P_trans; [|apply finish_frame].
  eapply P_trans; [apply P_fs|apply P_log].
Qed.

Lemma process_frame exp_id fh data_dir w :
  P w (process R exp_id fh data_dir w).2.
Proof.
  unfold process. unfold mbind at 1, M_bind at 1, bind at 1.
  pose proof (find_meta_frame exp_id fh w) as Hf.
  destruct (find_meta exp_id fh w) as [[e|meta] w1]; simpl in Hf;
    [exact Hf|].
  unfold mbind at 1, M_bind at 1, bind at 1.
  pose proof (urls_of_world meta w1) as Hu.
  destruct (urls_of meta w1) as [[e|urls] w2]; simpl in Hu; subst w2;
    [exact Hf|].
  unfold mbind at 1, M_bind at 1, bind at 1.
  pose proof (get_files_frame urls data_dir w1) as Hg.
  destruct (get_files R urls data_dir w1) as [[e|local] w3]; simpl in Hg;
    [by eapply P_trans|].
  unfold mbind at 1, M_bind at 1, bind at 1.
  pose proof (run_qc_frame local data_dir w3) as Hq.
  destruct (run_qc R local data_dir w3) as [[e|out] w4]; simpl in *;
    (eapply P_trans; [exact Hf|]); (eapply P_trans; [exact Hg|exact Hq]).
Qed.

End Frame.

Section Quiet.

Context {fs : Type} `{!OS fs}.

Lemma quiet_process (R : list string → Z → Z → fs → exn + fs)
    exp_id fh data_dir (w : World fs) :
  quiet w (process R exp_id fh data_dir w).2.
Proof.
  apply process_frame; unfold quiet; simpl; try done.
  - intros w1 w2 w3 (Ho1 & Hd1 & Hl1) (Ho2 & Hd2 & Hl2).
    split_and!; [congruence..|].
    intros Hd. rewrite Hl2, Hl1; [done..|congruence].
  - intros msgs w0. split_and!; [done..|]. by intros ->.
Qed.

End Quiet.

(** ** The pipeline of one id *)

Lemma make_row_lookup_None names r k :
  k ∉ names → make_row names r !! Some k = None.
Proof.
  intros Hk. apply eq_None_not_Some. unfold make_row, dict_zip.
  assert (¬ is_Some (foldl (λ d kv, <[Some kv.1 := VStr kv.2]> d) (∅ : row)
                       (zip names r) !! Some k)) as Hzip.
  { rewrite foldl_zip_is_Some, lookup_empty. intros [[? [=]]|Hin].
    apply elem_of_take in Hin as (i & Hi & _).
    apply Hk. by eapply list_elem_of_lookup_2. }
  destruct (_ <? _)%nat.
  - by rewrite lookup_insert_ne.
  - destruct (_ <? _)%nat; [|done].
    rewrite foldl_none_is_Some. intros [?|Hin]; [done|].
    apply Hk. rewrite <-(take_drop (length r) names).
    apply elem_of_app. by right.
Qed.

Lemma rows_of_elem hdr body r :
  r ∈ rows_of hdr body → ∃ rec, r = make_row hdr rec.
Proof. unfold rows_of. intros (rec & -> & _)%list_elem_of_fmap. eauto. Qed.

Lemma rows_matching_elem key rows r :
  r ∈ rows_matching key rows
  ↔ r !! Some "experiment_id" = Some (VStr key) ∧ r ∈ rows.
Proof. unfold rows_matching. by rewrite list_elem_of_filter. Qed.

Section Process.

Context {fs : Type} `{!OS fs}.
Variable R : list string → Z → Z → fs → exn + fs.

Implicit Types (w : World fs) (fh : TextIO).


Lemma urls_of_inr meta w vs w' :
  urls_of meta w = (inr vs, w') →
  Forall2 (λ m v, m !! Some "url" = Some v) meta vs.
Proof.
  revert vs w'. induction meta as [|m meta IH]; intros vs w'; simpl.
  - intros [= <- _]. constructor.
  - unfold getitem. destruct (m !! Some "url") as [v|] eqn:Hv; [|done].
    unfold mbind, M_bind, bind, ret.
    destruct (urls_of meta w) as [[e|vs'] w1]; [done|].
    intros [= <- _]. constructor; [done|by eapply IH].
Qed.

(** A list of values is a list of strings, or holds something else. *)
Lemma values_strs (files : list value) :
  (∃ urls, files = VStr <$> urls)
  ∨ (∃ v, v ∈ files ∧ ∀ s, v ≠ VStr s).
Proof.
  induction files as [|v files [[urls ->]|(v' & Hv' & Hne)]].
  - left. by exists [].
  - destruct v as [s| |l].
    + left. by exists (s :: urls).
    + right. exists VNone. split; [apply list_elem_of_here|done].
    + right. exists (VList l). split; [apply list_elem_of_here|done].
  - right. exists v'. split; [by apply list_elem_of_further|done].
Qed.

Lemma get_files_loop_bad raw_dir files expected todo w v :
  v ∈ files → (∀ s, v ≠ VStr s) →
  (get_files_loop raw_dir files expected todo w).1 = inl TypeError.
Proof.
  intros Hv Hne. revert expected todo w.
  induction files as [|[file| |l] files IH]; intros expected todo w; simpl;
    [by apply elem_of_nil in Hv| |done..].
  apply elem_of_cons in Hv as [->|Hv]; [by destruct (Hne file)|].
  case_bool_decide; [by apply IH|].
  unfold mbind, M_bind, bind, os_path_isfile, logging_debug. simpl.
  destruct (isfile _ _); by apply IH.
Qed.

Lemma idle_refl w : idle w w.
Proof. done. Qed.

Lemma idle_trans w1 w2 w3 : idle w1 w2 → idle w2 w3 → idle w1 w3.
Proof. intros [??] [??]. split; congruence. Qed.

(** Something that is not a string among the files: [TypeError], and
    no batch handed over. *)
Lemma get_files_bad files data_dir w v :
  v ∈ files → (∀ s, v ≠ VStr s) →
  is_Some (ensure_dir (raw_dir_of data_dir) (w_fs w)) →
  (get_files R files data_dir w).1 = inl TypeError
  ∧ w_batches (get_files R files data_dir w).2 = w_batches w.
Proof.
  intros Hv Hne [s1 Hdir].
  destruct (get_files R files data_dir w) as [res w'] eqn:Hrun. simpl.
  revert Hrun. unfold get_files.
  unfold mbind at 1, M_bind at 1, bind at 1, os_path_isdir. simpl.
  unfold mbind at 1, M_bind at 1, bind at 1.
  assert (∀ w1, w_batches w1 = w_batches w →
    (mbind (M := M fs) (λ '(expected, todo),
           (match todo with [] => ret () | _ :: _ => run_batch R todo 1 8 end);;
           check_expected expected)
           (get_files_loop (os_path.join data_dir "raw") files [] [])) w1
    = (res, w') →
    res = inl TypeError ∧ w_batches w' = w_batches w) as Hrest.
  { intros w1 Hw1. unfold mbind at 1, M_bind at 1, bind at 1.
    pose proof (get_files_loop_bad (os_path.join data_dir "raw") files [] []
                  w1 v Hv Hne) as Hbad.
    pose proof (get_files_loop_frame idle idle_refl idle_trans
                  (λ msgs w0, idle_refl _)
                  (os_path.join data_dir "raw") files [] [] w1) as [_ Hb].
    destruct (get_files_loop _ _ _ _ w1) as [[e|acc] w2]; simpl in *;
      [|done].
    intros [= <- <-]. split; congruence. }
  unfold ensure_dir, raw_dir_of in Hdir.
  destruct (isdir _ _); simpl; [by apply Hrest|].
  unfold os_makedirs. rewrite Hdir. by apply Hrest.
Qed.

(** A call of [get_files] that returns was given strings. *)
Lemma get_files_inr_strs files data_dir w local w' :
  get_files R files data_dir w = (inr local, w') →
  ∃ urls, files = VStr <$> urls.
Proof.
  intros Hrun. destruct (values_strs files) as [?|(v & Hv & Hne)]; [done|].
  destruct (ensure_dir (raw_dir_of data_dir) (w_fs w)) as [s1|] eqn:Hdir.
  - destruct (get_files_bad files data_dir w v Hv Hne) as [Hbad _]; [eauto|].
    by rewrite Hrun in Hbad.
  - unfold ensure_dir, raw_dir_of in Hdir. revert Hrun. unfold get_files.
    unfold mbind, M_bind, bind, os_path_isdir. simpl.
    destruct (isdir _ _); [done|]. simpl. unfold os_makedirs.
    by rewrite Hdir.
Qed.

End Process.

(** X6.  When the header has no [url] column and the id is in the
    table, [process] raises [KeyError] for the key [url]: the stream
    has been read to its end, but no directory was made, no command
    queued and nothing printed or logged. *)
Theorem process_missing_url {fs : Type} `{!OS fs}
    (R : list string → Z → Z → fs → exn + fs) exp_id fh data_dir
    (w : World fs) (hdr : list string) (body : list record) :
  w_streams w !! fh_id fh = Some (hdr :: body) →
  "experiment_id" ∈ hdr → "url" ∉ hdr →
  rows_matching (Str.of_int exp_id) (rows_of hdr body) ≠ [] →
  process R exp_id fh data_dir w
  = (inl (KeyError "url"), set_stream (fh_id fh) [] w).
Proof.
  intros Hs Hid Hurl Hne. unfold process.
  unfold mbind at 1, M_bind at 1, bind at 1.
  rewrite (find_meta_table _ _ _ hdr body) by done.
  destruct (rows_matching _ _) as [|m meta] eqn:Hm; [done|].
  assert (m ∈ rows_of hdr body) as (rec & ->)%rows_of_elem.
  { eapply rows_matching_elem. rewrite Hm. apply list_elem_of_here. }
  unfold mbind, M_bind, bind. simpl. unfold getitem.
  by rewrite make_row_lookup_None.
Qed.

Lemma process_missing_url_witness :
  process Sim.run_ok 7 Sim.fh0 "/data"
    (Sim.world Sim.empty [["experiment_id"; "link"]; ["7"; "ftp://h/a.fq"]])
  = (inl (KeyError "url"),
     set_stream 0 []
       (Sim.world Sim.empty
          [["experiment_id"; "link"]; ["7"; "ftp://h/a.fq"]])).
Proof.
  apply (process_missing_url Sim.run_ok 7 Sim.fh0 "/data" _
           ["experiment_id"; "link"] [["7"; "ftp://h/a.fq"]]).
  - reflexivity.
  - apply list_elem_of_here.
  - intros Hin.
    repeat (apply elem_of_cons in Hin as [Hin|Hin]; [discriminate|]).
    by apply elem_of_nil in Hin.
  - intros Hnil. apply (f_equal length) in Hnil.
    vm_compute in Hnil. discriminate.
Defined.



(** X8.  When [process] returns, the lookup returned rows that all
    hold a string under [url]; [get_files] returned the destinations
    of these URLs, each once; [run_qc] was run on exactly that list;
    and in the filesystem [process] leaves, the QC output of every URL
    of the experiment is a regular file. *)
Theorem process_success {fs : Type} `{!OS fs}
    (R : list string → Z → Z → fs → exn + fs) exp_id fh data_dir
    (w w' : World fs) :
  process R exp_id fh data_dir w = (inr (), w') →
  ∃ meta urls w1 w2,
    let local := dedup_first (raw_dest data_dir <$> urls) in
    find_meta exp_id fh w = (inr meta, w1)
    ∧ Forall2 (λ m u, m !! Some "url" = Some (VStr u)) meta urls
    ∧ get_files R (VStr <$> urls) data_dir w1 = (inr local, w2)
    ∧ run_qc R local data_dir w2
      = (inr (qc_path (qc_dir_of data_dir) <$> local), w')
    ∧ ∀ u, u ∈ urls →
        isfile (qc_path (qc_dir_of data_dir) (raw_dest data_dir u)) (w_fs w')
        = true.
Proof.
  unfold process. unfold mbind at 1, M_bind at 1, bind at 1.
  destruct (find_meta exp_id fh w) as [[e|meta] w1] eqn:Hfind; [done|].
  unfold mbind at 1, M_bind at 1, bind at 1.
  pose proof (urls_of_world meta w1) as Hw.
  destruct (urls_of meta w1) as [[e|vs] w1'] eqn:Hurls; [done|].
  simpl in Hw. subst w1'. apply urls_of_inr in Hurls.
  unfold mbind at 1, M_bind at 1, bind at 1.
  destruct (get_files R vs data_dir w1) as [[e|local] w2] eqn:Hget; [done|].
  destruct (get_files_inr_strs R _ _ _ _ _ Hget) as [urls ->].
  unfold mbind at 1, M_bind at 1, bind at 1.
  destruct (run_qc R local data_dir w2) as [[e|out] w3] eqn:Hqc; [done|].
  unfold ret. intros [= <-].
  pose proof Hget as Hget'. rewrite get_files_eq in Hget'. simpl in Hget'.
  destruct (ensure_dir _ (w_fs w1)); [|done].
  apply finish_inr in Hget' as (-> & _).
  pose proof Hqc as Hqc'. rewrite run_qc_eq in Hqc'. simpl in Hqc'.
  destruct (ensure_dir _ (w_fs w2)); [|done].
  apply finish_inr in Hqc' as (-> & Hmiss & _).
  exists meta, urls, w1, w2. simpl. split_and!; [done| |done|done|].
  - clear -Hurls. revert Hurls. generalize meta.
    induction urls as [|u urls IH]; intros meta' Hall; simpl in *.
    + inversion Hall. constructor.
    + inversion Hall as [|m v meta'' vs' Hm Hrest]; subst.
      constructor; [done|by apply IH].
  - intros u Hu. rewrite missing_of_nil in Hmiss. apply Hmiss.
    apply list_elem_of_fmap_2. unfold dedup_first.
    apply dedup_from_elem. split; [|by intros ?%elem_of_nil].
    change (dests (raw_dir_of data_dir) urls) with (raw_dest data_dir <$> urls).
    by apply list_elem_of_fmap_2.
Qed.

Lemma process_success_witness :
  let w := Sim.world Sim.empty [["experiment_id"; "url"];
                                ["7"; "ftp://host/reads.fastq.gz"]] in
  ∃ meta urls w1 w2,
    let local := dedup_first (raw_dest "/data" <$> urls) in
    find_meta 7 Sim.fh0 w = (inr meta, w1)
    ∧ Forall2 (λ m u, m !! Some "url" = Some (VStr u)) meta urls
    ∧ get_files Sim.run_ok (VStr <$> urls) "/data" w1 = (inr local, w2)
    ∧ run_qc Sim.run_ok local "/data" w2
      = (inr (qc_path (qc_dir_of "/data") <$> local),
         (process Sim.run_ok 7 Sim.fh0 "/data" w).2)
    ∧ ∀ u, u ∈ urls →
        isfile (qc_path (qc_dir_of "/data") (raw_dest "/data" u))
          (w_fs (process Sim.run_ok 7 Sim.fh0 "/data" w).2)
        = true.
Proof.
  intros w. apply (process_success Sim.run_ok 7 Sim.fh0 "/data" w).
  by apply run_pair; vm_compute.
Defined.

(** ** The driver *)

Section MainFacts.

Context {fs : Type} `{!OS fs}.
Variable R : list string → Z → Z → fs → exn + fs.

Implicit Types (w : World fs) (fh : TextIO).

Lemma main_loop_stdout ids i fh data_dir w res w' :
  main_loop R i ids fh data_dir w = (res, w') →
  (res = inr () → w_stdout w' = w_stdout w ++ ordinal_lines i ids)
  ∧ (∀ e, res = inl e →
       ∃ k, (0 < k ≤ length ids)%nat
            ∧ w_stdout w' = w_stdout w ++ take k (ordinal_lines i ids)).
Proof.
  revert i w. induction ids as [|exp_id ids IH]; intros i w; simpl.
  - intros [= <- <-]. split; [by rewrite app_nil_r|done].
  - unfold mbind at 1, M_bind at 1, bind at 1, print. simpl.
    unfold mbind at 1, M_bind at 1, bind at 1.
    pose proof (quiet_process R exp_id fh data_dir
                  (add_stdout (Str.fmt_int3 i +:+ ": " +:+ Str.of_int exp_id) w))
      as (Hout & _).
    destruct (process R exp_id fh data_dir _) as [[e|[]] w1]; simpl in *.
    + intros [= <- <-]. split; [done|]. intros _ _. exists 1%nat.
      split; [lia|done].
    + intros Hrun. destruct (IH (i + 1) w1 Hrun) as [Hok Herr]. split.
      * intros Hres. rewrite (Hok Hres), Hout, <-app_assoc. done.
      * intros e Hres. destruct (Herr e Hres) as (k & Hk & Hstd).
        exists (S k). split; [lia|].
        rewrite Hstd, Hout, <-app_assoc. done.
Qed.


End MainFacts.

(** X9.  Once the root logger is configured, which prints nothing, a
    run prints one line with the ordinal and the id ahead of each
    pipeline and [Done.] at the end, and an exception stops it where it
    is raised.  With no id, [Done.] alone is printed.  If the pipeline
    of the first id raises, its exception ends the run in the world
    that pipeline left: the line of the first id is the last one
    printed, no later id is announced or processed and [Done.] is not
    printed.  If it returns and there is no other id, [Done.] is
    printed and the run returns.  If it returns and a second id
    follows, the line of the second id is printed, its lookup raises
    [TypeError] and the run ends there: since the first pipeline only
    that line was added, no batch was handed over and no file changed,
    whatever ids follow.  In all, a run that returns has printed the
    lines of all its ids and [Done.]. *)
Theorem main_prints {fs : Type} `{!OS fs}
    (R : list string → Z → Z → fs → exn + fs) args (w w0 : World fs) :
  logging_basicConfig (logfile args) (debug args) w = (inr (), w0) →
  let fh := metadata args in
  let dir := data_dir args in
  let run := main R args w in
  let lines := ordinal_lines 1 (experiment_id args) in
  w_stdout w0 = w_stdout w
  ∧ (experiment_id args = [] → run = (inr (), add_stdout "Done." w0))
  ∧ (∀ id1 rest e w2,
       experiment_id args = id1 :: rest →
       process R id1 fh dir (add_stdout (ordinal_line 1 id1) w0)
       = (inl e, w2) →
       run = (inl e, w2)
       ∧ w_stdout w2 = w_stdout w ++ [ordinal_line 1 id1])
  ∧ (∀ id1 w2,
       experiment_id args = [id1] →
       process R id1 fh dir (add_stdout (ordinal_line 1 id1) w0)
       = (inr (), w2) →
       run = (inr (), add_stdout "Done." w2)
       ∧ w_stdout run.2 = w_stdout w ++ [ordinal_line 1 id1; "Done."])
  ∧ (∀ id1 id2 ids w2,
       experiment_id args = id1 :: id2 :: ids →
       process R id1 fh dir (add_stdout (ordinal_line 1 id1) w0)
       = (inr (), w2) →
       run = (inl TypeError, add_stdout (ordinal_line 2 id2) w2)
       ∧ w_stdout run.2
         = w_stdout w ++ [ordinal_line 1 id1; ordinal_line 2 id2]
       ∧ w_batches run.2 = w_batches w2
       ∧ w_fs run.2 = w_fs w2)
  ∧ (run.1 = inr () → w_stdout run.2 = w_stdout w ++ lines ++ ["Done."]).
Proof.
  intros Hcfg fh dir run lines. subst fh dir run lines.
  pose proof (main_eq R args w) as Hmain. rewrite Hcfg in Hmain.
  assert (w_stdout w0 = w_stdout w) as Hout0.
  { revert Hcfg. unfold logging_basicConfig.
    destruct (w_handlers w); [by intros [= <-]|].
    destruct (String.eqb _ _); [by intros [= <-]|].
    destruct (open_w _ _); [|done]. by intros [= <-]. }
  assert (∀ id1 res w2,
    process R id1 (metadata args) (data_dir args)
      (add_stdout (ordinal_line 1 id1) w0) = (res, w2) →
    w_stdout w2 = w_stdout w ++ [ordinal_line 1 id1]) as Hquiet.
  { intros id1 res w2 Hp.
    pose proof (quiet_process R id1 (metadata args) (data_dir args)
                  (add_stdout (ordinal_line 1 id1) w0)) as [Hout _].
    rewrite Hp in Hout. simpl in Hout. by rewrite Hout, Hout0. }
  split_and!; [done|..].
  - intros Hids. by rewrite Hmain, Hids.
  - intros id1 rest e w2 Hids Hp. rewrite Hmain, Hids.
    rewrite (main_loop_raises R _ _ _ _ _ _ _ _ Hp).
    split; [done|]. by eapply Hquiet.
  - intros id1 w2 Hids Hp. rewrite Hmain, Hids.
    rewrite (main_loop_single R _ _ _ _ _ _ Hp). simpl.
    split; [done|]. by rewrite (Hquiet _ _ _ Hp), <-app_assoc.
  - intros id1 id2 ids w2 Hids Hp. rewrite Hmain, Hids.
    rewrite (main_loop_second R _ _ _ _ _ _ _ _ Hp). simpl.
    split_and!; [done| |done..].
    by rewrite (Hquiet _ _ _ Hp), <-app_assoc.
  - rewrite Hmain.
    destruct (main_loop R 1 _ _ _ w0) as [[e|[]] w1] eqn:Hloop; [done|].
    apply main_loop_stdout in Hloop as [Hok _]. intros _. simpl.
    by rewrite (Hok eq_refl), Hout0, <-app_assoc.
Qed.

Lemma main_prints_witness :
  let table := [["experiment_id"; "url"]; ["7"; "ftp://host/reads.fastq.gz"];
                ["8"; "ftp://host/more.fq"]] in
  let args := {| experiment_id := [7; 8; 9]; data_dir := "/data";
                 metadata := Sim.fh0; debug := false; logfile := ".log" |} in
  let run := main Sim.run_ok args (Sim.world Sim.empty table) in
  run.1 = inl TypeError
  ∧ w_stdout run.2 = [ordinal_line 1 7; ordinal_line 2 8]
  ∧ w_batches run.2
    = [["iget -f ftp://host/reads.fastq.gz /data/raw/reads.fastq.gz"];
       ["gunzip -c /data/raw/reads.fastq.gz | fastq_quality_filter -q 20 -p 80 -Q 33 | fastx_clipper -l 80 | fastx_collapser > /data/qc/reads.fa"]].
Proof.
  intros table args run.
  destruct (main_prints Sim.run_ok args (Sim.world Sim.empty table)
              (logging_basicConfig (logfile args) (debug args)
                 (Sim.world Sim.empty table)).2)
    as (_ & _ & _ & _ & Hsecond & _).
  { by apply run_pair. }
  destruct (Hsecond 7 8 [9]
              (process Sim.run_ok 7 Sim.fh0 "/data"
                 (add_stdout (ordinal_line 1 7)
                    (logging_basicConfig (logfile args) (debug args)
                       (Sim.world Sim.empty table)).2)).2)
    as (Hrun & Hout & Hb & _).
  { reflexivity. }
  { by apply run_pair; vm_compute. }
  fold run in Hrun, Hout, Hb.
  split_and!.
  - by rewrite Hrun.
  - exact Hout.
  - rewrite Hb. by vm_compute.
Defined.



(** ** More on the lookup *)

(** X11.  On a stream that starts with a header record, [find_meta]
    returns exactly when the header has the column [experiment_id] and
    some row matches.  Without the column it raises the error that
    names the field and the file, having read the header only; with the
    column and no matching row it raises the error that names the id,
    having read the stream to its end. *)
Theorem find_meta_with_header {fs : Type} exp_id fh (w : World fs)
    (hdr : list string) (body : list record) :
  w_streams w !! fh_id fh = Some (hdr :: body) →
  let matching := rows_matching (Str.of_int exp_id) (rows_of hdr body) in
  ((∃ rows, (find_meta exp_id fh w).1 = inr rows)
   ↔ "experiment_id" ∈ hdr ∧ matching ≠ [])
  ∧ ("experiment_id" ∉ hdr →
     find_meta exp_id fh w
     = (inl (Exception (quoted (fh_name fh) +:+ " missing "
                        +:+ quoted "experiment_id" +:+ " field")),
        set_stream (fh_id fh) body w))
  ∧ ("experiment_id" ∈ hdr → matching = [] →
     find_meta exp_id fh w
     = (inl (Exception ("experiment_id " +:+ quoted (Str.of_int exp_id)
                        +:+ " not found")),
        set_stream (fh_id fh) [] w)).
Proof.
  intros Hs matching. subst matching. split_and!.
  - destruct (decide ("experiment_id" ∈ hdr)) as [Hin|Hout].
    + rewrite (find_meta_table _ _ _ hdr body) by done. simpl.
      destruct (rows_matching _ _) as [|m meta].
      * split; [by intros [? ?]|by intros [_ ?]].
      * split; [done|by eauto].
    + rewrite (find_meta_missing_field _ _ _ hdr body) by done. simpl.
      split; [by intros [? ?]|by intros [? _]].
  - intros Hout. by apply (find_meta_missing_field _ _ _ hdr body).
  - intros Hin Hnil. rewrite (find_meta_table _ _ _ hdr body) by done.
    by rewrite Hnil.
Qed.

Lemma find_meta_with_header_witness :
  find_meta 9 Sim.fh0
    (Sim.world Sim.empty [["sample"; "url"]; ["9"; "ftp://h/a.fq"]])
  = (inl (Exception (quoted "meta.csv" +:+ " missing "
                     +:+ quoted "experiment_id" +:+ " field")),
     set_stream 0 [["9"; "ftp://h/a.fq"]]
       (Sim.world Sim.empty [["sample"; "url"]; ["9"; "ftp://h/a.fq"]])).
Proof.
  apply (proj1 (proj2 (find_meta_with_header 9 Sim.fh0
                         (Sim.world Sim.empty
                            [["sample"; "url"]; ["9"; "ftp://h/a.fq"]])
                         ["sample"; "url"] [["9"; "ftp://h/a.fq"]] eq_refl))).
  intros Hin.
  repeat (apply elem_of_cons in Hin as [Hin|Hin]; [discriminate|]).
  by apply elem_of_nil in Hin.
Defined.

(** X12.  Lookups of different ids in one table share no row: a row
    that [find_meta] returns for one id is returned for no other. *)
Theorem find_meta_ids_disjoint {fs : Type} id1 id2 fh (w : World fs)
    rows1 rows2 w1 w2 :
  id1 ≠ id2 →
  find_meta id1 fh w = (inr rows1, w1) →
  find_meta id2 fh w = (inr rows2, w2) →
  ∀ r, r ∈ rows1 → r ∉ rows2.
Proof.
  intros Hne.
  destruct (w_streams w !! fh_id fh) as [[|hdr body]|] eqn:Hs.
  - by rewrite find_meta_exhausted.
  - destruct (decide ("experiment_id" ∈ hdr)) as [Hin|Hout].
    + rewrite !(find_meta_table _ _ _ hdr body) by done.
      destruct (rows_matching (Str.of_int id1) _) as [|m1 l1] eqn:H1; [done|].
      destruct (rows_matching (Str.of_int id2) _) as [|m2 l2] eqn:H2; [done|].
      intros [= <- _] [= <- _] r. rewrite <-H1, <-H2.
      intros [Hr1 _]%rows_matching_elem [Hr2 _]%rows_matching_elem.
      rewrite Hr1 in Hr2. injection Hr2 as Hr2.
      by apply (inj pretty) in Hr2.
    + by rewrite (find_meta_missing_field _ _ _ hdr body).
  - by rewrite find_meta_closed.
Qed.

Lemma find_meta_ids_disjoint_witness :
  let hdr := ["experiment_id"; "url"] in
  let body := [["7"; "a"]; ["8"; "b"]] in
  make_row hdr ["7"; "a"] ∉ rows_matching (Str.of_int 8) (rows_of hdr body).
Proof.
  intros hdr body.
  assert (∀ exp_id,
            length (rows_matching (Str.of_int exp_id) (rows_of hdr body))
            = 1%nat →
            find_meta exp_id Sim.fh0 (Sim.world Sim.empty (hdr :: body))
            = (inr (rows_matching (Str.of_int exp_id) (rows_of hdr body)),
               set_stream 0 [] (Sim.world Sim.empty (hdr :: body)))) as Hfind.
  { intros exp_id Hlen.
    rewrite (find_meta_table exp_id Sim.fh0 _ hdr body);
      [|reflexivity|apply list_elem_of_here].
    by destruct (rows_matching _ _). }
  apply (find_meta_ids_disjoint 7 8 Sim.fh0
           (Sim.world Sim.empty (hdr :: body)) _ _ _ _ ltac:(discriminate)
           (Hfind 7 ltac:(by vm_compute)) (Hfind 8 ltac:(by vm_compute))).
  apply rows_matching_elem. split; [by vm_compute|apply list_elem_of_here].
Defined.

(** ** The data directory [get_args] returns *)











(** X14.  [get_args] makes the data directory only when nothing is at
    that path, and then accepts it; a path that exists and is not a
    directory is refused through [parser.error], which names it, and
    nothing is made.  When the directory cannot be made the [OSError]
    is the outcome, in the filesystem the failed [os.makedirs] left,
    in which leading directories may have been made. *)
Theorem get_args_directory {fs : Type} `{!OS fs}
    (path_exists : string → fs → bool) (cwd : string) args s :
  let d := data_dir args in
  (path_exists d s = true → isdir d s = false →
   get_args_checks path_exists cwd args s
   = (inl (ParserError ("--data_dir " +:+ quoted d +:+ " not a directory")),
      s))
  ∧ (path_exists d s = true → isdir d s = true →
     ∃ args', get_args_checks path_exists cwd args s = (inr args', s))
  ∧ (∀ s1, path_exists d s = false → makedirs d s = Some s1 →
     ∃ args', get_args_checks path_exists cwd args s = (inr args', s1))
  ∧ (path_exists d s = false → makedirs d s = None →
     get_args_checks path_exists cwd args s
     = (inl (Raised (OSError d)), makedirs_raised d s)).
Proof.
  intros d. subst d. unfold get_args_checks. split_and!.
  - intros -> Hd. simpl. by rewrite Hd.
  - intros -> Hd. simpl. rewrite Hd. simpl.
    destruct (negb _); by eexists.
  - intros s1 -> Hmk. simpl. rewrite Hmk.
    rewrite (makedirs_isdir _ _ _ Hmk). simpl.
    destruct (negb _); by eexists.
  - intros -> Hmk. simpl. by rewrite Hmk.
Qed.

Lemma get_args_directory_witness :
  let args d := {| experiment_id := [7]; data_dir := d;
                   metadata := Sim.fh0; debug := false; logfile := ".log" |} in
  get_args_checks sim_exists "/home/u" (args "/data")
    {| Sim.files := ["/data"]; Sim.dirs := [] |}
  = (inl (ParserError ("--data_dir " +:+ quoted "/data"
                       +:+ " not a directory")),
     {| Sim.files := ["/data"]; Sim.dirs := [] |})
  ∧ (∃ args',
      get_args_checks sim_exists "/home/u" (args "/data") Sim.empty
      = (inr args', {| Sim.files := []; Sim.dirs := ["/data"] |}))
  ∧ get_args_checks sim_exists "/home/u" (args "top/new/..")
      {| Sim.files := []; Sim.dirs := ["top"] |}
    = (inl (Raised (OSError "top/new/..")),
       {| Sim.files := []; Sim.dirs := ["top/new"; "top"] |}).
Proof.
  intros args. split_and!.
  - apply (proj1 (get_args_directory sim_exists "/home/u" (args "/data")
                    {| Sim.files := ["/data"]; Sim.dirs := [] |}));
      reflexivity.
  - apply (proj1 (proj2 (proj2 (get_args_directory sim_exists "/home/u"
                                  (args "/data") Sim.empty)))); reflexivity.
  - rewrite (proj2 (proj2 (proj2
               (get_args_directory sim_exists "/home/u" (args "top/new/..")
                  {| Sim.files := []; Sim.dirs := ["top"] |}))));
      reflexivity.
Defined.

(** ** The helpers [fst] and [snd] *)

(** X15.  [fst] raises [IndexError] on the empty tuple only and [snd]
    on a tuple of fewer than two items only; on a pair they return its
    two items. *)
Theorem fst_snd_index {A : Type} (t : list A) :
  (is_Some (ebi.fst t) ↔ (1 ≤ length t)%nat)
  ∧ (is_Some (ebi.snd t) ↔ (2 ≤ length t)%nat)
  ∧ (∀ a b : A, ebi.fst [a; b] = Some a ∧ ebi.snd [a; b] = Some b)
  ∧ (∀ a b : A, ebi.fst t = Some a → ebi.snd t = Some b →
                take 2 t = [a; b]).
Proof.
  unfold ebi.fst, ebi.snd. split_and!.
  - rewrite lookup_lt_is_Some. lia.
  - rewrite lookup_lt_is_Some. lia.
  - done.
  - intros a b. destruct t as [|x [|y t]]; simpl; [done..|].
    by intros [= ->] [= ->].
Qed.

(** ** Names *)

(** X16.  A downloaded file keeps the basename of its URL, and the QC
    output of a URL is named after that basename alone: it is
    [<data_dir>/qc/<stem of basename(url)>.fa], whatever the host and
    the directories of the URL. *)
Theorem local_names data_dir url :
  os_path.basename (raw_dest data_dir url) = os_path.basename url
  ∧ qc_path (qc_dir_of data_dir) (raw_dest data_dir url)
    = qc_dir_of data_dir +:+ "/" +:+ qc_stem (os_path.basename url) +:+ ".fa"
  ∧ os_path.basename (qc_path (qc_dir_of data_dir) (raw_dest data_dir url))
    = qc_stem (os_path.basename url) +:+ ".fa"
  ∧ qc_source (raw_dest data_dir url)
    = (if Str.endswith (os_path.basename url) ".gz"
       then "gunzip -c " else "cat ") +:+ raw_dest data_dir url.
Proof.
  assert (os_path.basename (raw_dest data_dir url) = os_path.basename url)
    as Hbase.
  { rewrite raw_dest_eq. apply basename_dir, basename_no_slash. }
  split_and!; [done| | |].
  - by rewrite qc_path_eq, Hbase.
  - rewrite qc_path_eq, Hbase. apply basename_dir.
    rewrite smem_app, qc_stem_no_slash; [done|apply basename_no_slash].
  - unfold qc_source. rewrite Hbase. by destruct (Str.endswith _ _).
Qed.
